(** * MenuAI: the menu-analysis pipeline of [server.js]

    A shallow embedding of the request handler [POST /api/analyze-menu] and
    of the helpers it calls ([validateMenuImages], [extractDishesFromImage],
    [getPronunciationsForNames], [getAllergensForItems]), followed by the
    properties of the pipeline.

    Conventions of the embedding.
    - A JavaScript string is the sequence of its UTF-16 code units; the
      development covers strings whose code units are below 256, one
      [ascii] per code unit.
    - A JavaScript value is a [value]; [undefined] is the absence of a
      value ([None] in an [option value]).
    - An object is given by its own enumerable properties, and it inherits
      from [Object.prototype]; an array, a string, a number and a boolean
      inherit from the prototype of their kind, and through it from
      [Object.prototype].  A read under a computed key ([map[n]],
      [pronunciations[d.original_name]]) goes through this chain
      ([Lookup], [read]), and an assignment under a computed key reaches
      the accessor [__proto__] of [Object.prototype] ([put]).  A read under
      a key that the source spells out ([dish.original_name], [it.name])
      is the read of an own property ([Get]): no prototype of the chain has
      a property of such a name.
    - Everything outside the source file is gathered in a [World]: the
      answers of the chat-completion service, the function [JSON.parse],
      and the methods of the built-in prototypes that vary with the
      version of the engine.
    - Every call to the service is recorded, in the order of issue, in a
      log that is threaded through the code. *)

From Stdlib Require Import Ascii.
From Stdlib Require String.
From stdpp Require Import gmap strings list fin_maps pretty.

#[local] Set Warnings "-register-all".

(** ** Strings *)

Module JsString.

(** [''] *)
Definition empty : string := EmptyString.

(** The code units below 256 that [String.prototype.trim] and the regular
    expression class [\s] treat as white space: TAB, LF, VT, FF, CR,
    SPACE and NO-BREAK SPACE. *)
Definition isSpace (c : ascii) : bool :=
  let n := nat_of_ascii c in
  (((9 <=? n) && (n <=? 13)) || (n =? 32) || (n =? 160))%nat.

Fixpoint trimStart (s : string) : string :=
  match s with
  | EmptyString => EmptyString
  | String c r => if isSpace c then trimStart r else s
  end.

Fixpoint trimEnd (s : string) : string :=
  match s with
  | EmptyString => EmptyString
  | String c r =>
      match trimEnd r with
      | EmptyString => if isSpace c then EmptyString else String c EmptyString
      | r' => String c r'
      end
  end.

(** [s.trim()] *)
Definition trim (s : string) : string := trimEnd (trimStart s).

(** Lower case of one code unit below 256: A-Z, and the capital letters
    of the Latin-1 supplement (U+00C0 to U+00DE, U+00D7 excepted). *)
Definition lowerUnit (c : ascii) : ascii :=
  let n := nat_of_ascii c in
  if (((65 <=? n) && (n <=? 90))
      || ((192 <=? n) && (n <=? 222) && negb (n =? 215)))%nat
  then ascii_of_nat (n + 32) else c.

(** [s.toLowerCase()] *)
Fixpoint toLowerCase (s : string) : string :=
  match s with
  | EmptyString => EmptyString
  | String c r => String (lowerUnit c) (toLowerCase r)
  end.

(** [s.startsWith(p)] *)
Definition startsWith (p s : string) : bool := String.prefix p s.

(** [s.endsWith(p)] *)
Definition endsWith (p s : string) : bool :=
  (String.length p <=? String.length s)%nat
  && String.eqb (String.substring (String.length s - String.length p) (String.length p) s) p.

(** [s.slice(n)] for [0 <= n] *)
Definition dropUnits (n : nat) (s : string) : string :=
  String.substring n (String.length s - n) s.

(** [s.replace(/\s*```$/, '')]: when [s] ends with a fence, the fence
    goes together with the white space in front of it. *)
Definition dropClosingFence (s : string) : string :=
  if endsWith "```" s
  then trimEnd (String.substring 0 (String.length s - 3) s)
  else s.

(** The code-fence removal that the three consumers of a completion
    share:
<<
    if (content.startsWith('```json')) {
        content = content.replace(/```json\s*/, '').replace(/\s*```$/, '');
    } else if (content.startsWith('```')) {
        content = content.replace(/```\s*/, '').replace(/\s*```$/, '');
    }
>>
    In either branch the first regular expression matches at offset 0. *)
Definition stripFences (content : string) : string :=
  if startsWith "```json" content
  then dropClosingFence (trimStart (dropUnits 7 content))
  else if startsWith "```" content
  then dropClosingFence (trimStart (dropUnits 3 content))
  else content.

End JsString.

Import JsString.

(** ** Values *)

(** The prototype objects that the values at hand inherit from. *)
Inductive Prototype :=
| ObjectPrototype
| ArrayPrototype
| StringPrototype
| NumberPrototype
| BooleanPrototype.

(** An object of the engine that a read through the prototype chain can
    give: a prototype object itself, which the accessor [__proto__] gives,
    or a native function, known by its name. *)
Inductive Builtin :=
| PrototypeObject (p : Prototype)
| NativeFunction (name : string).

(** The values that [JSON.parse] builds and that the handler passes
    around, and the built-in objects that a read through the prototype
    chain can put among them; [JSON.parse] itself builds no built-in.  A
    number is carried by the text [String(x)] gives for it, which
    determines it (the two zeros apart, and nothing here tells them apart):
    its IEEE 754 value is never computed. *)
Inductive value :=
| JNull
| JBool (b : bool)
| JNum (repr : string)
| JStr (s : string)
| JArr (items : list value)
| JObj (props : gmap string value)
| JBuiltin (b : Builtin).

(** A plain object, by its own properties; its prototype is
    [Object.prototype]. *)
Abbreviation obj := (gmap string value).

(** The function-valued properties of a built-in prototype: [methods p k]
    is the name of the function that [p] holds under the key [k]. *)
Abbreviation Methods := (Prototype -> string -> option string).

Module Js.

(** A number from a [nat], as the loop counters are. *)
Definition ofNat (n : nat) : value := JNum (pretty n).

(** [Boolean(v)]; [undefined] is falsy. *)
Definition ToBoolean (v : value) : bool :=
  match v with
  | JNull => false
  | JBool b => b
  | JNum r => negb (String.eqb r "0") && negb (String.eqb r "NaN")
  | JStr s => negb (String.eqb s empty)
  | JArr _ | JObj _ | JBuiltin _ => true
  end.

Definition truthy (ov : option value) : bool :=
  match ov with Some v => ToBoolean v | None => false end.

(** [typeof v === 'string'] *)
Definition isString (ov : option value) : bool :=
  match ov with Some (JStr _) => true | _ => false end.

(** [typeof v === 'object'] ([null] included, as in JavaScript), for
    [v] a property of a parsed value, which is the only place where the
    source asks for it. *)
Definition isObject (ov : option value) : bool :=
  match ov with Some (JObj _ | JArr _ | JNull) => true | _ => false end.

Definition isDigit (c : ascii) : bool :=
  let n := nat_of_ascii c in (48 <=? n) && (n <=? 57).

(** The array index that a property key denotes: a key is an index when
    it is the decimal numeral of a number, without a leading zero. *)
Definition keyIndex (k : string) : option nat :=
  match String.list_ascii_of_string k with
  | [] => None
  | c :: r =>
      if negb (forallb isDigit (c :: r)) then None
      else if (nat_of_ascii c =? 48) && negb (length r =? 0) then None
      else Some (foldl (fun acc d => 10 * acc + (nat_of_ascii d - 48)) 0 (c :: r))
  end.

Definition unitsOf (s : string) : list value :=
  (fun c => JStr (String c EmptyString)) <$> String.list_ascii_of_string s.

(** The own property [k] of a parsed value [v] other than [null].  This
    is [v.k] for the keys that the source spells out ([original_name],
    [simple_description], [nutrition], [name], [description]): no
    prototype of the chain has a property of such a name. *)
Definition Get (v : value) (k : string) : option value :=
  match v with
  | JObj o => o !! k
  | JArr l =>
      if String.eqb k "length" then Some (ofNat (length l))
      else i ← keyIndex k; l !! i
  | JStr s =>
      if String.eqb k "length" then Some (ofNat (String.length s))
      else i ← keyIndex k; unitsOf s !! i
  | _ => None
  end.

(** The functions that [Object.prototype] holds, each under its key and
    with its name.  The property [__proto__], an accessor, is apart. *)
Definition objectMethods : list (string * string) :=
  [("constructor", "Object");
   ("__defineGetter__", "__defineGetter__");
   ("__defineSetter__", "__defineSetter__");
   ("hasOwnProperty", "hasOwnProperty");
   ("__lookupGetter__", "__lookupGetter__");
   ("__lookupSetter__", "__lookupSetter__");
   ("isPrototypeOf", "isPrototypeOf");
   ("propertyIsEnumerable", "propertyIsEnumerable");
   ("toString", "toString");
   ("valueOf", "valueOf");
   ("toLocaleString", "toLocaleString")].

Definition objectMethod (k : string) : option string :=
  snd <$> List.find (fun e => String.eqb e.1 k) objectMethods.

(** What a value whose prototype is [p] inherits under the key [k].  The
    methods of [p] come first, then those of [Object.prototype]; the
    accessor [__proto__] of [Object.prototype] gives the prototype of the
    value that is read, here [p], and no other prototype has a property
    of that name. *)
Definition inherited (methods : Methods) (p : Prototype) (k : string) : option value :=
  if String.eqb k "__proto__" then Some (JBuiltin (PrototypeObject p))
  else
    match (match p with ObjectPrototype => None | _ => methods p k end) with
    | Some f => Some (JBuiltin (NativeFunction f))
    | None => (fun f => JBuiltin (NativeFunction f)) <$> objectMethod k
    end.

(** [v[k]] under a computed key, for a parsed value [v] other than
    [null]: the own property, or else what the prototype chain gives.  Of
    a built-in the source never reads a property. *)
Definition Lookup (methods : Methods) (v : value) (k : string) : option value :=
  match Get v k with
  | Some x => Some x
  | None =>
      match v with
      | JObj _ => inherited methods ObjectPrototype k
      | JArr _ => inherited methods ArrayPrototype k
      | JStr _ => inherited methods StringPrototype k
      | JNum _ => inherited methods NumberPrototype k
      | JBool _ => inherited methods BooleanPrototype k
      | JNull | JBuiltin _ => None
      end
  end.

(** [v[k]] for any [v]: reading a property of [null] throws ([None]). *)
Definition LookupV (methods : Methods) (v : value) (k : string) : option (option value) :=
  match v with
  | JNull => None
  | _ => Some (Lookup methods v k)
  end.

(** [String(f)] for a native function, as V8 prints it. *)
Definition nativeText (name : string) : string :=
  "function " +:+ name +:+ "() { [native code] }".

(** [String(v)], which is also the conversion of a template literal and
    of a property key.  It throws ([None]) on an object that carries an
    own [toString] property, which is never callable in a parsed value.
    An array prints its elements separated by commas, [null] as nothing.
    The prototype of the arrays is an empty array, that of the strings the
    empty string, that of the numbers zero and that of the booleans
    [false], each in an object. *)
Fixpoint ToString (v : value) : option string :=
  match v with
  | JNull => Some "null"
  | JBool true => Some "true"
  | JBool false => Some "false"
  | JNum r => Some r
  | JStr s => Some s
  | JArr l =>
      (fix join (l : list value) : option string :=
         match l with
         | [] => Some empty
         | x :: r =>
             match (match x with JNull => Some empty | _ => ToString x end), join r with
             | Some a, Some b =>
                 Some (a +:+ (match r with [] => empty | _ => "," end) +:+ b)
             | _, _ => None
             end
         end) l
  | JObj o =>
      match o !! "toString" with
      | Some _ => None
      | None => Some "[object Object]"
      end
  | JBuiltin (NativeFunction f) => Some (nativeText f)
  | JBuiltin (PrototypeObject ObjectPrototype) => Some "[object Object]"
  | JBuiltin (PrototypeObject ArrayPrototype) => Some empty
  | JBuiltin (PrototypeObject StringPrototype) => Some empty
  | JBuiltin (PrototypeObject NumberPrototype) => Some "0"
  | JBuiltin (PrototypeObject BooleanPrototype) => Some "false"
  end.

(** [String(v)] and the key of [o[v]] when [v] may be [undefined] *)
Definition ToPropertyKey (ov : option value) : option string :=
  match ov with
  | None => Some "undefined"
  | Some v => ToString v
  end.

(** [a || b] *)
Definition or_else (a b : option value) : option value :=
  if truthy a then a else b.

(** [o[k] = v].  A property that holds [undefined] reads like a missing
    one and [res.json] leaves it out: it is recorded as missing. *)
Definition set (k : string) (ov : option value) (o : obj) : obj :=
  match ov with
  | Some v => <[k := v]> o
  | None => delete k o
  end.

(** [o[k] = v] for a primitive [v], on an object that inherits from
    [Object.prototype].  Under the key [__proto__] the value goes to the
    accessor of [Object.prototype], which ignores a primitive: no property
    is created.  Under any other key it becomes an own property. *)
Definition put (k : string) (v : value) (o : obj) : obj :=
  if String.eqb k "__proto__" then o else <[k := v]> o.

(** An object literal that a loop fills with [o[n] = n]: its own
    properties, and its prototype, which is [Object.prototype] ([None])
    until an assignment under [__proto__] puts an array in its place. *)
Record Dict := { own : obj; proto : option (list value) }.

(** [{}] *)
Definition emptyDict : Dict := {| own := ∅; proto := None |}.

(** [o[k]] under a computed key, for such an object: the own property, or
    else what the prototype gives.  When the prototype is an array, its
    length and its elements are inherited before the methods of
    [Array.prototype], and the accessor [__proto__] gives the array. *)
Definition read (methods : Methods) (o : Dict) (k : string) : option value :=
  match own o !! k with
  | Some x => Some x
  | None =>
      match proto o with
      | None => inherited methods ObjectPrototype k
      | Some l =>
          if String.eqb k "__proto__" then Some (JArr l)
          else match Get (JArr l) k with
               | Some x => Some x
               | None => inherited methods ArrayPrototype k
               end
      end
  end.

(** [{...v}]: the own enumerable properties of [v]. *)
Definition spread (v : value) : obj :=
  match v with
  | JObj o => o
  | JArr l => list_to_map (imap (fun i x => (pretty i, x)) l)
  | JStr s => list_to_map (imap (fun i x => (pretty i, x)) (unitsOf s))
  | _ => ∅
  end.

(** Equality as [Set] sees it (SameValueZero).  Objects and arrays are
    compared by reference; the values compared here sit at different
    places of parsed replies, so two of them are never the same
    reference, and none is a built-in. *)
Definition sameValueZero (a b : value) : bool :=
  match a, b with
  | JNull, JNull => true
  | JBool x, JBool y => Bool.eqb x y
  | JNum x, JNum y => String.eqb x y
  | JStr x, JStr y => String.eqb x y
  | _, _ => false
  end.

(** [Array.from(new Set(l))]: the first occurrence of each value, in
    order. *)
Fixpoint uniqFrom (seen l : list value) : list value :=
  match l with
  | [] => []
  | x :: r =>
      if existsb (sameValueZero x) seen then uniqFrom seen r
      else x :: uniqFrom (x :: seen) r
  end.

Definition uniq (l : list value) : list value := uniqFrom [] l.

End Js.

Import Js.

(** ** The outside world *)

(** One request to [openai.chat.completions.create].  The model, the token
    limit and the fixed part of each prompt are constants of the source; a
    request is told apart by its kind and by what the prompt is built from:
    the image, the numbered dish names, or the numbered name and
    description pairs. *)
Inductive Request :=
| ClassifyImage (imageData : value)
| ExtractDishes (imageData : value)
| Pronunciations (names : list string)
| Allergens (items : list (string * string)).

(** What comes back: the promise rejects, or it resolves to a response
    without [choices], or to one whose [choices[0].message.content] is
    there ([Some]) or is missing at some level ([None]). *)
Inductive Reply :=
| Rejected
| NoChoices
| Completion (content : option string).

(** [complete n r] is the reply to request [r] when [n] requests were
    issued before it.  [JSON_parse s] is [None] when [JSON.parse(s)]
    throws.  [methods p k] names the function that the prototype [p] of the
    arrays, of the strings, of the numbers or of the booleans holds under
    [k]: these vary with the version of the engine ([at], [toSorted] ...),
    whereas those of [Object.prototype] are [objectMethods] in every
    version. *)
Record World := {
  complete : nat -> Request -> Reply;
  JSON_parse : string -> option value;
  methods : Methods;
}.

(** A computation that issues requests: it extends the log of the requests
    issued so far. *)
Definition M (A : Type) : Type := list Request -> A * list Request.

#[export] Instance M_ret : MRet M := fun A (a : A) log => (a, log).
#[export] Instance M_bind : MBind M := fun A B (f : A -> M B) (m : M A) log =>
  let (a, log') := m log in f a log'.

(** ** The handler *)

(** What the handler hands to [res.json], as it is in memory. *)
Inductive Body :=
| ErrorBody (error : string)
| ErrorMessageBody (error message : string)
| DishesBody (dishes : list obj).

Record HttpResponse := { status : nat; body : Body }.

Section Server.

Context (w : World).

(** [await openai.chat.completions.create(...)] *)
Definition create (r : Request) : M Reply :=
  fun log => (complete w (length log) r, log ++ [r]).

(** [response.choices?.[0]?.message?.content?.trim() || '{}'] followed by
    the removal of code fences, as both enrichment helpers do. *)
Definition mapText (r : Reply) : string :=
  let content :=
    match r with
    | Completion (Some c) => if String.eqb (trim c) empty then "{}" else trim c
    | _ => "{}"
    end in
  stripFences content.

(** [try { map = JSON.parse(content); } catch { map = {}; }] *)
Definition parseMap (content : string) : value :=
  match JSON_parse w content with
  | Some v => v
  | None => JObj ∅
  end.

(** *** validateMenuImages *)

(** [answer === 'yes'] for
    [answer = response.choices[0]?.message?.content?.trim().toLowerCase()] *)
Definition saysYes (content : option string) : bool :=
  match content with
  | Some c => String.eqb (toLowerCase (trim c)) "yes"
  | None => false
  end.

Fixpoint validateMenuImages (images : list value) : M bool :=
  match images with
  | [] => mret false
  | imageData :: rest =>
      response ← create (ClassifyImage imageData);
      match response with
      | Rejected | NoChoices => mret true
      | Completion content =>
          if saysYes content then mret true else validateMenuImages rest
      end
  end.

(** *** extractDishesFromImage *)

(** The test of [dishes.filter]. *)
Definition validDish (dish : value) : bool :=
  ToBoolean dish
  && isString (Get dish "original_name")
  && isString (Get dish "simple_description")
  && truthy (Get dish "nutrition")
  && isObject (Get dish "nutrition").

(** The default dish of the [catch (parseError)] branch. *)
Definition fallbackDish : value :=
  JObj (<["original_name" := JStr "Menu Item"]>
        (<["simple_description" :=
             JStr "Unable to extract dish details from this image section"]>
        (<["nutrition" :=
             JObj (<["calories" := JStr "Medium"]>
                  (<["sugar" := JStr "Low"]>
                  (<["fat" := JStr "Medium"]>
                  (<["greens" := JStr "Low"]> ∅))))]> ∅))).

(** What the inner [try] makes of the cleaned content. *)
Definition dishesOfContent (content : string) : list value :=
  match JSON_parse w content with
  | Some (JArr dishes) => filter validDish dishes
  | _ => [fallbackDish]
  end.

(** [None] when the function throws: the request is rejected, or the
    response has no [choices[0].message.content] to trim. *)
Definition extractDishesFromImage (imageData : value) : M (option (list value)) :=
  response ← create (ExtractDishes imageData);
  match response with
  | Completion (Some c) => mret (Some (dishesOfContent (stripFences (trim c))))
  | _ => mret None
  end.

(** *** getPronunciationsForNames *)

(** [names.forEach(n => { filled[n] = String(map[n] || n); })]; [None]
    when a conversion or the read of [map] throws. *)
Definition fillPronunciations (map : value) (names : list value) : option obj :=
  foldl (fun acc n =>
           filled ← acc;
           k ← ToString n;
           x ← LookupV (methods w) map k;
           s ← ToPropertyKey (or_else x (Some n));
           Some (put k (JStr s) filled))
        (Some ∅) names.

(** [names.forEach(n => { fallback[n] = n; })] of the [catch] branch.  The
    key is the text that [n] converts to.  A value that converts to
    [__proto__] is a primitive, which the accessor ignores, or an array,
    which the accessor makes the prototype of [fallback]: an object other
    than an array converts to another text. *)
Definition fallbackMap (names : list value) : option Dict :=
  foldl (fun acc n =>
           fallback ← acc;
           k ← ToString n;
           Some (if String.eqb k "__proto__"
                 then match n with
                      | JArr l => {| own := own fallback; proto := Some l |}
                      | _ => fallback
                      end
                 else {| own := <[k := n]> (own fallback); proto := proto fallback |}))
        (Some emptyDict) names.

(** [None] when the promise rejects, which takes an exception inside the
    [catch] branch.  The prompt lists the names as the template literal
    converts them. *)
Definition getPronunciationsForNames (names : list value) : M (option Dict) :=
  match mapM ToString names with
  | None => mret (fallbackMap names)
  | Some listed =>
      response ← create (Pronunciations listed);
      match response with
      | Rejected => mret (fallbackMap names)
      | _ =>
          match fillPronunciations (parseMap (mapText response)) names with
          | Some filled => mret (Some {| own := filled; proto := None |})
          | None => mret (fallbackMap names)
          end
      end
  end.

(** *** getAllergensForItems *)

(** [String(it && it.name || '').trim()], for a property of an item. *)
Definition normalizeField (ov : option value) : option string :=
  trim <$> ToPropertyKey (or_else ov (Some (JStr empty))).

(** The items are object literals [{ name, description }]; a pair stands
    for one. *)
Definition normalizeItems (items : list (option value * option value))
  : option (list (string * string)) :=
  filter (fun it => it.1 ≠ empty)
    <$> mapM (fun it => n ← normalizeField it.1;
                        d ← normalizeField it.2;
                        Some (n, d)) items.

(** [normalized.forEach(it => { result[it.name] = String(map[it.name] || '').trim(); })] *)
Definition fillAllergens (map : value) (normalized : list (string * string)) : option obj :=
  foldl (fun acc it =>
           result ← acc;
           x ← LookupV (methods w) map it.1;
           s ← ToPropertyKey (or_else x (Some (JStr empty)));
           Some (put it.1 (JStr (trim s)) result))
        (Some ∅) normalized.

(** The whole body sits in a [try] whose [catch] returns [{}]: the
    promise never rejects. *)
Definition getAllergensForItems (items : list (option value * option value)) : M obj :=
  match normalizeItems items with
  | None | Some [] => mret ∅
  | Some normalized =>
      response ← create (Allergens normalized);
      match response with
      | Rejected => mret ∅
      | _ => mret (default ∅ (fillAllergens (parseMap (mapText response)) normalized))
      end
  end.

(** *** POST /api/analyze-menu *)

(** [{ ...d, page: i + 1 }] *)
Definition withPage (page : nat) (d : value) : obj :=
  <["page" := ofNat page]> (spread d).

(** The loop over the images, from index [i] on, with the dishes gathered
    so far.  An image whose extraction throws adds nothing. *)
Fixpoint extractAll (images : list value) (i : nat) (allDishes : list obj)
  : M (list obj) :=
  match images with
  | [] => mret allDishes
  | imageData :: rest =>
      extracted ← extractDishesFromImage imageData;
      match extracted with
      | Some dishes => extractAll rest (S i) (allDishes ++ (withPage (i + 1) <$> dishes))
      | None => extractAll rest (S i) allDishes
      end
  end.

(** [Array.from(new Set(allDishes.map(d => d && d.original_name).filter(Boolean)))] *)
Definition uniqueNames (allDishes : list obj) : list value :=
  uniq (filter ToBoolean (omap (fun d : obj => d !! "original_name") allDishes)).

(** [allDishes.map(d => ({ name: d.original_name, description: d.simple_description }))] *)
Definition itemsOf (allDishes : list obj) : list (option value * option value) :=
  (fun d : obj => (d !! "original_name", d !! "simple_description")) <$> allDishes.

(** [(typeof a === 'string' && a.trim().length > 0) ? a.trim() : ''] *)
Definition allergenText (a : option value) : string :=
  match a with
  | Some (JStr s) => if String.eqb (trim s) empty then empty else trim s
  | _ => empty
  end.

(** The body of [allDishes.forEach(d => ...)]; [None] when the conversion
    of [d.original_name] to a property key throws, before anything is
    assigned.  The second read of [d.original_name] gives the same key.
    Both maps are read through their prototype chain. *)
Definition enrichDish (pronunciations : Dict) (allergens : obj) (d : obj) : option obj :=
  k ← ToPropertyKey (d !! "original_name");
  let d1 := set "pronunciation"
              (or_else (read (methods w) pronunciations k) (d !! "original_name")) d in
  Some (<["allergens" := JStr (allergenText (Lookup (methods w) (JObj allergens) k))]> d1).

(** The [forEach] updates the dishes in place, one after the other; an
    exception ends it and is swallowed by the [try] around the stage, so
    the dishes from that one on stay as they were. *)
Fixpoint enrichAll (pronunciations : Dict) (allergens : obj) (allDishes : list obj)
  : list obj :=
  match allDishes with
  | [] => []
  | d :: rest =>
      match enrichDish pronunciations allergens d with
      | Some d' => d' :: enrichAll pronunciations allergens rest
      | None => d :: rest
      end
  end.

(** The enrichment stage: the [try] block after the early return.  Both
    helpers are started before either is awaited, the pronunciations
    first. *)
Definition enrich (allDishes : list obj) : M (list obj) :=
  let names := uniqueNames allDishes in
  maps ← match names with
         | [] => mret (emptyDict, ∅)
         | _ =>
             pronunciations ← getPronunciationsForNames names;
             allergens ← getAllergensForItems (itemsOf allDishes);
             mret (default emptyDict pronunciations, allergens)
         end;
  mret (enrichAll maps.1 maps.2 allDishes).

(** [req.body.skip_enrichment === true || req.body.skip_enrichment === 'true'] *)
Definition skipRequested (reqBody : obj) : bool :=
  match reqBody !! "skip_enrichment" with
  | Some (JBool true) => true
  | Some (JStr s) => String.eqb s "true"
  | _ => false
  end.

Definition noImages : HttpResponse :=
  {| status := 400;
     body := ErrorBody "No images provided. Please upload at least one menu image." |}.

Definition tooManyImages : HttpResponse :=
  {| status := 400;
     body := ErrorBody "Too many images. Maximum 5 images allowed." |}.

Definition notMenuImages : HttpResponse :=
  {| status := 400;
     body := ErrorMessageBody "NOT_MENU_IMAGES"
               "The uploaded images do not appear to be restaurant menus. Please upload images of restaurant menus." |}.

Definition noDishes : HttpResponse :=
  {| status := 422;
     body := ErrorBody "No dishes could be extracted from the provided images. Please ensure the images contain readable menu text." |}.

Definition ok (allDishes : list obj) : HttpResponse :=
  {| status := 200; body := DishesBody allDishes |}.

(** What runs once the batch has passed the size checks. *)
Definition analyzeImages (reqBody : obj) (images : list value) : M HttpResponse :=
  areMenuImages ← validateMenuImages images;
  if negb areMenuImages then mret notMenuImages
  else
    allDishes ← extractAll images 0 [];
    match allDishes with
    | [] => mret noDishes
    | _ =>
        if skipRequested reqBody then mret (ok allDishes)
        else enriched ← enrich allDishes; mret (ok enriched)
    end.

(** The handler, on the parsed request body.  Nothing that it runs lets an
    exception escape, so the outer [catch] with its 500 response has no
    counterpart here. *)
Definition analyzeMenu (reqBody : obj) : M HttpResponse :=
  match reqBody !! "images" with
  | Some (JArr images) =>
      match images with
      | [] => mret noImages
      | _ => if 5 <? length images then mret tooManyImages
             else analyzeImages reqBody images
      end
  | _ => mret noImages
  end.

End Server.

(** * Vocabulary of the statements *)

(** ** Replies to a classification request *)

Definition affirmative (r : Reply) : Prop :=
  ∃ c, r = Completion (Some c) ∧ toLowerCase (trim c) = "yes".

Definition errored (r : Reply) : Prop := r = Rejected ∨ r = NoChoices.

Definition negative (r : Reply) : Prop := ¬ affirmative r ∧ ¬ errored r.

(** ** What an image contributes *)

(** The dishes that [extractDishesFromImage] returns on a reply; [None]
    when it throws. *)
Definition extracted (w : World) (r : Reply) : option (list value) :=
  match r with
  | Completion (Some c) => Some (dishesOfContent w (stripFences (trim c)))
  | _ => None
  end.

(** The records that an image adds to the result, from the reply to its
    extraction request. *)
Definition dishesOfReply (w : World) (page : nat) (r : Reply) : list obj :=
  match extracted w r with
  | Some dishes => withPage page <$> dishes
  | None => []
  end.

(** The records of the image at index [i], when [start] requests were
    issued before the extraction loop began. *)
Definition imageDishes (w : World) (start i : nat) (imageData : value) : list obj :=
  dishesOfReply w (i + 1) (complete w (start + i) (ExtractDishes imageData)).

(** ** Requests of the enrichment stage *)

Definition pronunciationRequests (names : list value) : list Request :=
  match mapM ToString names with
  | Some listed => [Pronunciations listed]
  | None => []
  end.

Definition allergenRequests (items : list (option value * option value)) : list Request :=
  match normalizeItems items with
  | Some (it :: normalized) => [Allergens (it :: normalized)]
  | _ => []
  end.

Definition enrichmentRequests (allDishes : list obj) : list Request :=
  match uniqueNames allDishes with
  | [] => []
  | names => pronunciationRequests names ++ allergenRequests (itemsOf allDishes)
  end.

(** ** What the filter of the extraction guarantees *)

(** The two texts are strings and the nutrition is an object or an array:
    what [typeof] and the truth test of [dishes.filter] establish. *)
Definition validRecord (d : obj) : Prop :=
  (∃ n, d !! "original_name" = Some (JStr n))
  ∧ (∃ s, d !! "simple_description" = Some (JStr s))
  ∧ ((∃ o, d !! "nutrition" = Some (JObj o)) ∨ (∃ l, d !! "nutrition" = Some (JArr l))).

(** ** Responses *)

(** The records of a response, none for an error. *)
Definition dishesOf (r : HttpResponse) : list obj :=
  match body r with
  | DishesBody dishes => dishes
  | _ => []
  end.

(** ** Names and items as texts *)

(** The text of a property that holds a string. *)
Definition textOf (ov : option value) : string :=
  match ov with
  | Some (JStr s) => s
  | _ => empty
  end.

(** Items whose name and description are strings, as the handler and the
    endpoint [/api/allergens] pass them. *)
Definition asItems (items : list (string * string)) : list (option value * option value) :=
  (fun it => (Some (JStr it.1), Some (JStr it.2))) <$> items.

(** The items after trimming, those with an empty name left out. *)
Definition normalized (items : list (string * string)) : list (string * string) :=
  filter (fun it => it.1 ≠ empty) ((fun it => (trim it.1, trim it.2)) <$> items).

(** ** Order-preserving deduplication *)

(** The names of a list, each kept where it first occurs and dropped
    wherever it occurs again. *)
Fixpoint firstOccurrences (names : list string) : list string :=
  match names with
  | [] => []
  | n :: rest => n :: filter (fun m => m ≠ n) (firstOccurrences rest)
  end.

(** ** Maps filled by a loop of assignments *)

(** One turn of a [forEach] that assigns [o[k] = v] for a primitive [v],
    where computing the key and the value of the turn may throw. *)
Definition assign {A : Type} (f : A → option (string * value))
    (acc : option obj) (x : A) : option obj :=
  m ← acc; kv ← f x; Some (put kv.1 kv.2 m).

(** The assignment of one turn of the loop of [getPronunciationsForNames]. *)
Definition pronunciationEntry (w : World) (map : value) (n : value)
  : option (string * value) :=
  k ← ToString n;
  x ← LookupV (methods w) map k;
  s ← ToPropertyKey (or_else x (Some n));
  Some (k, JStr s).

(** The assignment of one turn of the loop of [getAllergensForItems]. *)
Definition allergenEntry (w : World) (map : value) (it : string * string)
  : option (string * value) :=
  x ← LookupV (methods w) map it.1;
  s ← ToPropertyKey (or_else x (Some (JStr empty)));
  Some (it.1, JStr (trim s)).

(** A map whose keys are the given names and whose values are strings. *)
Definition totalOver (names : list string) (m : obj) : Prop :=
  (∀ k, is_Some (m !! k) ↔ k ∈ names)
  ∧ ∀ k v, m !! k = Some v → ∃ s, v = JStr s.

(** The names under which an assignment creates a property: all but
    [__proto__]. *)
Definition assignable (names : list string) : list string :=
  filter (fun k => k ≠ "__proto__") names.

(** The names that every object inherits: those of the methods of
    [Object.prototype], and [__proto__]. *)
Definition inheritedName (k : string) : Prop :=
  k = "__proto__" ∨ is_Some (objectMethod k).

(** [String(({})[n] || n)] for a name [n] other than [__proto__]: the text
    of the method of that name, or the name itself. *)
Definition unparsedPronunciation (n : string) : string :=
  match objectMethod n with
  | Some f => nativeText f
  | None => n
  end.

(** [String(({})[n] || '').trim()] for a name [n] other than [__proto__]. *)
Definition unparsedAllergens (n : string) : string :=
  match objectMethod n with
  | Some f => nativeText f
  | None => empty
  end.

(** [Object.prototype], as a value. *)
Definition objectPrototype : value := JBuiltin (PrototypeObject ObjectPrototype).

(** ** Size policy *)

Definition sizePolicyError (r : HttpResponse) : Prop :=
  r = noImages ∨ r = tooManyImages.

(** * Sample worlds

    The concrete runs below use worlds that answer from a script: the n-th
    request gets the n-th reply, and a request beyond the script is
    rejected.  [JSON.parse] is given by its results on the texts that occur;
    on any other text of these runs it throws.  The engine is one of
    ECMAScript 2021. *)

Module Sample.

(** A JSON text, written with ['] for the double quote. *)
Definition json (s : string) : string :=
  String.string_of_list_ascii
    ((fun c => if (nat_of_ascii c =? 39) then ascii_of_nat 34 else c)
       <$> String.list_ascii_of_string s).

(** The methods of the prototypes of the arrays, of the strings, of the
    numbers and of the booleans in ECMAScript 2021.  A method has the name
    of its key, but for [constructor] and for the two older names of
    [trimStart] and [trimEnd]. *)
Definition es2021 : Methods := fun p k =>
  let among (keys : list string) :=
    if existsb (String.eqb k) keys then Some k else None in
  match p with
  | ObjectPrototype => None
  | ArrayPrototype =>
      if String.eqb k "constructor" then Some "Array"
      else among ["concat"; "copyWithin"; "entries"; "every"; "fill"; "filter";
                  "find"; "findIndex"; "flat"; "flatMap"; "forEach"; "includes";
                  "indexOf"; "join"; "keys"; "lastIndexOf"; "map"; "pop"; "push";
                  "reduce"; "reduceRight"; "reverse"; "shift"; "slice"; "some";
                  "sort"; "splice"; "toLocaleString"; "toString"; "unshift";
                  "values"]
  | StringPrototype =>
      if String.eqb k "constructor" then Some "String"
      else if String.eqb k "trimLeft" then Some "trimStart"
      else if String.eqb k "trimRight" then Some "trimEnd"
      else among ["anchor"; "big"; "blink"; "bold"; "charAt"; "charCodeAt";
                  "codePointAt"; "concat"; "endsWith"; "fixed"; "fontcolor";
                  "fontsize"; "includes"; "indexOf"; "italics"; "lastIndexOf";
                  "link"; "localeCompare"; "match"; "matchAll"; "normalize";
                  "padEnd"; "padStart"; "repeat"; "replace"; "replaceAll";
                  "search"; "slice"; "small"; "split"; "startsWith"; "strike";
                  "sub"; "substr"; "substring"; "sup"; "toLocaleLowerCase";
                  "toLocaleUpperCase"; "toLowerCase"; "toString"; "toUpperCase";
                  "trim"; "trimEnd"; "trimStart"; "valueOf"]
  | NumberPrototype =>
      if String.eqb k "constructor" then Some "Number"
      else among ["toExponential"; "toFixed"; "toLocaleString"; "toPrecision";
                  "toString"; "valueOf"]
  | BooleanPrototype =>
      if String.eqb k "constructor" then Some "Boolean"
      else among ["toString"; "valueOf"]
  end.

Definition scripted (script : list Reply) (parses : list (string * value)) : World :=
  {| complete := fun n _ => default Rejected (script !! n);
     JSON_parse := fun s => snd <$> List.find (fun e => String.eqb e.1 s) parses;
     methods := es2021 |}.

Definition says (s : string) : Reply := Completion (Some s).

Definition image (name : string) : value := JStr name.

Definition request (images : list value) : obj := <["images" := JArr images]> ∅.

Definition threeImages : list value := [image "p1"; image "p2"; image "p3"].

(** The second image is recognised as a menu. *)
Definition secondIsMenu : World := scripted [says "NO"; says " Yes "; says "NO"] [].

(** No image is recognised as a menu. *)
Definition noneIsMenu : World := scripted [says "NO"; says "no."; Completion None] [].

(** The second classification fails. *)
Definition secondFails : World := scripted [says "NO"; Rejected; says "NO"] [].

(** A dish as the prompt of the extraction asks for it. *)
Definition dish (name description calories sugar fat : string) : value :=
  JObj (<["original_name" := JStr name]>
       (<["simple_description" := JStr description]>
       (<["nutrition" :=
            JObj (<["calories" := JStr calories]>
                 (<["sugar" := JStr sugar]>
                 (<["unhealthy_fat" := JStr fat]> ∅)))]> ∅))).

Definition twoImages : list value := [image "p1"; image "p2"].

Definition page1Text : string :=
  json "[{'original_name':'Tonkotsu Ramen','simple_description':'This is a soup.','nutrition':{'calories':'High','sugar':'Low','unhealthy_fat':'High'}},{'original_name':'Gyoza','simple_description':'This is a dumpling.','nutrition':{'calories':'Medium','sugar':'Low','unhealthy_fat':'Medium'}}]".

Definition page1Dishes : value :=
  JArr [dish "Tonkotsu Ramen" "This is a soup." "High" "Low" "High";
        dish "Gyoza" "This is a dumpling." "Medium" "Low" "Medium"].

Definition page2Text : string :=
  json "[{'original_name':'Tonkotsu Ramen','simple_description':'This is a noodle soup.','nutrition':{'calories':'High','sugar':'Low','unhealthy_fat':'High'}}]".

Definition page2Dishes : value :=
  JArr [dish "Tonkotsu Ramen" "This is a noodle soup." "High" "Low" "High"].

Definition pronunciationsText : string :=
  json "{'Tonkotsu Ramen':'ton-KOT-soo RAH-men','Gyoza':'GYOH-zah'}".

Definition pronunciationsMap : value :=
  JObj (<["Tonkotsu Ramen" := JStr "ton-KOT-soo RAH-men"]>
       (<["Gyoza" := JStr "GYOH-zah"]> ∅)).

Definition allergensText : string :=
  json "{'Tonkotsu Ramen':'wheat, egg, soy','Gyoza':'wheat, soy'}".

Definition allergensMap : value :=
  JObj (<["Tonkotsu Ramen" := JStr "wheat, egg, soy"]>
       (<["Gyoza" := JStr "wheat, soy"]> ∅)).

(** An element that names nothing: both texts are empty and the nutrition
    has no field. *)
Definition namelessText : string :=
  json "[{'original_name':'','simple_description':'','nutrition':{}}]".

Definition namelessDishes : value :=
  JArr [JObj (<["original_name" := JStr empty]>
             (<["simple_description" := JStr empty]>
             (<["nutrition" := JObj ∅]> ∅)))].

Definition parses : list (string * value) :=
  [(page1Text, page1Dishes); (page2Text, page2Dishes);
   (pronunciationsText, pronunciationsMap); (allergensText, allergensMap);
   (namelessText, namelessDishes)].

(** Two pages that both list Tonkotsu Ramen; every request is answered. *)
Definition twoPages : World :=
  scripted [says "YES"; says page1Text; says page2Text;
            says pronunciationsText; says allergensText] parses.

(** The same, but the extraction request of the second page is rejected. *)
Definition secondPageFails : World :=
  scripted [says "YES"; says page1Text; Rejected;
            says pronunciationsText; says allergensText] parses.

(** Validation passes and every extraction request is rejected. *)
Definition noPageReadable : World :=
  scripted [says "YES"; Rejected; Rejected] parses.

(** One image, whose reply parses to a list with the nameless element. *)
Definition namelessPage : World := scripted [says "YES"; says namelessText] parses.

(** One image, whose reply is prose: [JSON.parse] throws on it. *)
Definition prosePage : World :=
  scripted [says "YES"; says "Sorry, I cannot read this menu."] parses.

Definition skipping (reqBody : obj) : obj := <["skip_enrichment" := JBool true]> reqBody.


Definition gyoza : obj :=
  withPage 1 (dish "Gyoza" "This is a dumpling." "Medium" "Low" "Medium").

End Sample.

(** * Further vocabulary *)

(** A text made of white space only. *)
Fixpoint isBlank (s : string) : bool :=
  match s with
  | EmptyString => true
  | String c r => isSpace c && isBlank r
  end.

(** A text that does not begin with white space. *)
Definition cleanStart (s : string) : Prop :=
  match s with
  | EmptyString => True
  | String c _ => isSpace c = false
  end.

(** The two maps that the enrichment stage merges into the records. *)
Definition enrichmentMaps (w : World) (allDishes : list obj) (log : list Request)
  : Dict * obj :=
  match uniqueNames allDishes with
  | [] => (emptyDict, ∅)
  | names =>
      let (pronunciations, log1) := getPronunciationsForNames w names log in
      let (allergens, _) := getAllergensForItems w (itemsOf allDishes) log1 in
      (default emptyDict pronunciations, allergens)
  end.

(** A reply that gives an enrichment helper nothing to use: the request is
    rejected, or the text cannot be parsed. *)
Definition unusable (w : World) (r : Reply) : Prop :=
  r = Rejected ∨ JSON_parse w (mapText r) = None.

(** * The endpoints of the progressive enrichment *)

(** The answer of [/api/pronunciations] and of [/api/allergens]: status 200
    with the map under the field of the endpoint, or status 500 with the
    error of the endpoint's own [catch].  The map is given by its own
    properties, which are what [res.json] writes. *)
Inductive MapResponse :=
| MapBody (field : string) (map : obj)
| FailureBody (error : string).

(** [POST /api/pronunciations], on the parsed body; [None] is a request
    without a body, for which [req.body || {}] stands in. *)
Definition postPronunciations (w : World) (reqBody : option obj) : M MapResponse :=
  let list :=
    match default ∅ reqBody !! "names" with
    | Some (JArr names) => filter ToBoolean names
    | _ => []
    end in
  match list with
  | [] => mret (MapBody "pronunciations" ∅)
  | _ =>
      map ← getPronunciationsForNames w list;
      mret (MapBody "pronunciations" (own (default emptyDict map)))
  end.

(** [it && it.name] and [it && it.description], before [|| '']: a falsy
    item gives a falsy value. *)
Definition itemProps (it : value) : option value * option value :=
  if ToBoolean it then (Get it "name", Get it "description") else (None, None).

(** [POST /api/allergens].  The endpoint normalizes the items itself, and a
    conversion that throws there ends in its [catch]. *)
Definition postAllergens (w : World) (reqBody : option obj) : M MapResponse :=
  match default ∅ reqBody !! "items" with
  | Some (JArr items) =>
      match normalizeItems (itemProps <$> items) with
      | None => mret (FailureBody "Failed to infer allergens")
      | Some [] => mret (MapBody "allergens" ∅)
      | Some list =>
          map ← getAllergensForItems w (asItems list);
          mret (MapBody "allergens" map)
      end
  | _ => mret (MapBody "allergens" ∅)
  end.

(** The item [{ name, description }] of a request body. *)
Definition itemObject (it : string * string) : value :=
  JObj (<["name" := JStr it.1]> (<["description" := JStr it.2]> ∅)).

(** * The handler without page tags

    The second copy of the server has the same validation and extraction
    functions and a shorter handler of [POST /api/analyze-menu]: the dishes
    of an image are pushed as they are ([allDishes.push(...dishes)]), and
    the gathered list is returned without enrichment. *)

Module Untagged.

(** An error response, or status 200 with the gathered dishes. *)
Inductive Answer :=
| Refused (r : HttpResponse)
| Listed (dishes : list value).

Fixpoint extractAll (w : World) (images : list value) (allDishes : list value)
  : M (list value) :=
  match images with
  | [] => mret allDishes
  | imageData :: rest =>
      extracted ← extractDishesFromImage w imageData;
      match extracted with
      | Some dishes => extractAll w rest (allDishes ++ dishes)
      | None => extractAll w rest allDishes
      end
  end.

Definition analyzeMenu (w : World) (reqBody : obj) : M Answer :=
  match reqBody !! "images" with
  | Some (JArr images) =>
      match images with
      | [] => mret (Refused noImages)
      | _ =>
          if 5 <? length images then mret (Refused tooManyImages)
          else
            areMenuImages ← validateMenuImages w images;
            if negb areMenuImages then mret (Refused notMenuImages)
            else
              allDishes ← extractAll w images [];
              match allDishes with
              | [] => mret (Refused noDishes)
              | _ => mret (Listed allDishes)
              end
      end
  | _ => mret (Refused noImages)
  end.

End Untagged.

(** * Further sample worlds *)

Module Cases.

(** A line break, as a reply has it around a fence. *)
Definition newline : string := "
".

(** The extraction reply is an empty list inside a json fence. *)
Definition fencedJson : World :=
  Sample.scripted
    [Sample.says (newline +:+ ("```json" +:+ newline +:+ "[]" +:+ newline +:+ "```") +:+ newline)]
    [("[]", JArr [])].

(** The extraction reply is an empty list inside a plain fence. *)
Definition fencedPlain : World :=
  Sample.scripted
    [Sample.says (EmptyString +:+ ("```" +:+ newline +:+ "[]" +:+ EmptyString +:+ "```") +:+ newline)]
    [("[]", JArr [])].

(** The two pages of [Sample.twoPages], with the enrichment requests
    rejected whenever they are issued. *)
Definition enrichmentDown : World :=
  {| complete := fun n r =>
       match r with
       | Pronunciations _ | Allergens _ => Rejected
       | _ => complete Sample.twoPages n r
       end;
     JSON_parse := JSON_parse Sample.twoPages;
     methods := methods Sample.twoPages |}.

(** A page whose dish is named with a space on either side, and an
    allergen reply that knows the dish by its trimmed name. *)
Definition spacedText : string :=
  Sample.json "[{'original_name':' Gyoza ','simple_description':'This is a dumpling.','nutrition':{}}]".

Definition spacedDishes : value :=
  JArr [JObj (<["original_name" := JStr " Gyoza "]>
             (<["simple_description" := JStr "This is a dumpling."]>
             (<["nutrition" := JObj ∅]> ∅)))].

Definition spacedName : World :=
  Sample.scripted
    [Sample.says "YES"; Sample.says spacedText;
     Sample.says Sample.pronunciationsText; Sample.says Sample.allergensText]
    ((spacedText, spacedDishes) :: Sample.parses).

(** A page whose dishes are named [__proto__] and Gyoza.  The reply to
    the pronunciation request knows both: [JSON.parse] gives its object an
    own property [__proto__]. *)
Definition protoText : string :=
  Sample.json "[{'original_name':'__proto__','simple_description':'This is a prototype.','nutrition':{}},{'original_name':'Gyoza','simple_description':'This is a dumpling.','nutrition':{}}]".

Definition protoDishes : value :=
  JArr [JObj (<["original_name" := JStr "__proto__"]>
             (<["simple_description" := JStr "This is a prototype."]>
             (<["nutrition" := JObj ∅]> ∅)));
        JObj (<["original_name" := JStr "Gyoza"]>
             (<["simple_description" := JStr "This is a dumpling."]>
             (<["nutrition" := JObj ∅]> ∅)))].

Definition protoPronunciationsText : string :=
  Sample.json "{'__proto__':'PROH-toh','Gyoza':'GYOH-zah'}".

Definition protoPronunciationsMap : value :=
  JObj (<["__proto__" := JStr "PROH-toh"]> (<["Gyoza" := JStr "GYOH-zah"]> ∅)).

Definition protoNamed : World :=
  Sample.scripted
    [Sample.says "YES"; Sample.says protoText;
     Sample.says protoPronunciationsText; Sample.says Sample.allergensText]
    ((protoText, protoDishes) :: (protoPronunciationsText, protoPronunciationsMap)
       :: Sample.parses).

(** A page whose dish is named [constructor]; both enrichment requests are
    answered with prose, on which [JSON.parse] throws. *)
Definition constructorText : string :=
  Sample.json "[{'original_name':'constructor','simple_description':'This is a builder.','nutrition':{}}]".

Definition constructorDishes : value :=
  JArr [JObj (<["original_name" := JStr "constructor"]>
             (<["simple_description" := JStr "This is a builder."]>
             (<["nutrition" := JObj ∅]> ∅)))].

Definition constructorPage : World :=
  Sample.scripted [Sample.says "YES"; Sample.says constructorText]
    ((constructorText, constructorDishes) :: Sample.parses).

Definition constructorNamed : World :=
  {| complete := fun n r =>
       match r with
       | Pronunciations _ | Allergens _ => Sample.says "Sorry, I cannot help."
       | _ => complete constructorPage n r
       end;
     JSON_parse := JSON_parse constructorPage;
     methods := methods constructorPage |}.

(** The only request is answered with the map of pronunciations. *)
Definition pronouncing : World :=
  Sample.scripted [Sample.says Sample.pronunciationsText] Sample.parses.

(** The only request is answered with the map of allergens. *)
Definition inferring : World :=
  Sample.scripted [Sample.says Sample.allergensText] Sample.parses.

End Cases.
(** * Properties *)

(** ** The string helpers at work *)

Example trim_both_ends : trim "  Tonkotsu Ramen  " = "Tonkotsu Ramen".
Proof. reflexivity. Qed.

Example stripFences_json_block :
  stripFences "```json
[]
```" = "[]".
Proof. reflexivity. Qed.

Example stripFences_plain_block : stripFences "``` {} ```" = "{}".
Proof. reflexivity. Qed.

Example stripFences_no_fence : stripFences "[] ```" = "[] ```".
Proof. reflexivity. Qed.

Example yes_in_any_case : saysYes (Some " Yes
") = true ∧ saysYes (Some "Yes.") = false.
Proof. split; reflexivity. Qed.

(** ** Validation *)

Section Validation.

Context (w : World).

Lemma saysYes_affirmative content :
  saysYes content = true ↔ affirmative (Completion content).
Proof.
  unfold saysYes, affirmative. destruct content as [c|].
  - rewrite String.eqb_eq. split.
    + intros H. by exists c.
    + intros (c' & [= ->] & H). done.
  - split; [done | intros (c' & [=] & _)].
Qed.

Lemma validate_cons imageData rest log :
  validateMenuImages w (imageData :: rest) log =
    match complete w (length log) (ClassifyImage imageData) with
    | Rejected | NoChoices => (true, log ++ [ClassifyImage imageData])
    | Completion content =>
        if saysYes content then (true, log ++ [ClassifyImage imageData])
        else validateMenuImages w rest (log ++ [ClassifyImage imageData])
    end.
Proof.
  cbn. unfold mbind, M_bind, create.
  destruct (complete w (length log) (ClassifyImage imageData)) as [| |content]; try done.
  by destruct (saysYes content).
Qed.

Lemma validate_stops images k imageData log :
  images !! k = Some imageData →
  (∀ j img, j < k → images !! j = Some img →
     negative (complete w (length log + j) (ClassifyImage img))) →
  affirmative (complete w (length log + k) (ClassifyImage imageData))
  ∨ errored (complete w (length log + k) (ClassifyImage imageData)) →
  validateMenuImages w images log = (true, log ++ (ClassifyImage <$> take (S k) images)).
Proof.
  revert k log. induction images as [|img rest IH]; intros k log Hk Hbefore Hstop; [done|].
  rewrite validate_cons. destruct k as [|k].
  - injection Hk as ->. rewrite Nat.add_0_r in Hstop. cbn [take fmap list_fmap].
    rewrite take_0. cbn.
    destruct Hstop as [Hyes | [-> | ->]]; try done.
    destruct Hyes as (c & -> & Hc).
    assert (saysYes (Some c) = true) as -> by (apply saysYes_affirmative; by exists c).
    done.
  - pose proof (Hbefore 0 img ltac:(lia) eq_refl) as [Hnyes Hnerr].
    rewrite Nat.add_0_r in Hnyes, Hnerr.
    destruct (complete w (length log) (ClassifyImage img)) as [| |content] eqn:Hr.
    + destruct Hnerr. by left.
    + destruct Hnerr. by right.
    + destruct (saysYes content) eqn:Hy.
      { destruct Hnyes. by apply saysYes_affirmative. }
      rewrite (IH k (log ++ [ClassifyImage img]) Hk).
      * cbn. by rewrite <- app_assoc.
      * intros j img' Hj Hl. rewrite length_app. cbn.
        replace (length log + 1 + j) with (length log + S j) by lia.
        apply Hbefore; [lia | done].
      * rewrite length_app. cbn.
        by replace (length log + 1 + k) with (length log + S k) by lia.
Qed.

Lemma validate_exhausts images log :
  (∀ j img, images !! j = Some img →
     negative (complete w (length log + j) (ClassifyImage img))) →
  validateMenuImages w images log = (false, log ++ (ClassifyImage <$> images)).
Proof.
  revert log. induction images as [|img rest IH]; intros log Hall.
  - cbn. by rewrite app_nil_r.
  - rewrite validate_cons.
    pose proof (Hall 0 img eq_refl) as [Hnyes Hnerr].
    rewrite Nat.add_0_r in Hnyes, Hnerr.
    destruct (complete w (length log) (ClassifyImage img)) as [| |content] eqn:Hr.
    + destruct Hnerr. by left.
    + destruct Hnerr. by right.
    + destruct (saysYes content) eqn:Hy.
      { destruct Hnyes. by apply saysYes_affirmative. }
      rewrite IH.
      * cbn. by rewrite <- app_assoc.
      * intros j img' Hl. rewrite length_app. cbn.
        replace (length log + 1 + j) with (length log + S j) by lia.
        by apply Hall.
Qed.

(** The log only grows, by classification requests for a prefix of the
    images. *)
Lemma validate_log images log :
  ∃ n, (validateMenuImages w images log).2 = log ++ (ClassifyImage <$> take n images).
Proof.
  revert log. induction images as [|img rest IH]; intros log.
  - exists 0. cbn. by rewrite app_nil_r.
  - rewrite validate_cons.
    destruct (complete w (length log) (ClassifyImage img)) as [| |content];
      try (by exists 1; cbn; rewrite take_0).
    destruct (saysYes content); [by exists 1; cbn; rewrite take_0|].
    destruct (IH (log ++ [ClassifyImage img])) as [n Hn].
    exists (S n). rewrite Hn. cbn. by rewrite <- app_assoc.
Qed.

End Validation.

(** C6: the validation stage asks about the images in input order, one
    request each.  It answers [true] at the first image whose reply is an
    affirmative single word, and also at the first image whose request
    errors (the error is absorbed), in both cases without a request for any
    later image; when every image has been asked without either, it answers
    [false]. *)
Theorem validation_short_circuits_and_fails_open
    (w : World) (images : list value) (log : list Request) :
  let reply i img := complete w (length log + i) (ClassifyImage img) in
  (∀ k imageData,
     images !! k = Some imageData →
     (∀ j img, j < k → images !! j = Some img → negative (reply j img)) →
     affirmative (reply k imageData) ∨ errored (reply k imageData) →
     validateMenuImages w images log
     = (true, log ++ (ClassifyImage <$> take (S k) images)))
  ∧ ((∀ j img, images !! j = Some img → negative (reply j img)) →
     validateMenuImages w images log = (false, log ++ (ClassifyImage <$> images))).
Proof.
  split.
  - intros k imageData. apply validate_stops.
  - apply validate_exhausts.
Qed.

Lemma negative_says s :
  toLowerCase (trim s) ≠ "yes" → negative (Completion (Some s)).
Proof.
  intros Hs. split.
  - intros (c & [= <-] & Hc). done.
  - intros [H | H]; discriminate H.
Qed.

Lemma negative_no_content : negative (Completion None).
Proof.
  split.
  - intros (c & [=] & _).
  - intros [H | H]; discriminate H.
Qed.

Lemma validation_witness :
  validateMenuImages Sample.secondIsMenu Sample.threeImages []
  = (true, [ClassifyImage (Sample.image "p1"); ClassifyImage (Sample.image "p2")])
  ∧ validateMenuImages Sample.secondFails Sample.threeImages []
    = (true, [ClassifyImage (Sample.image "p1"); ClassifyImage (Sample.image "p2")])
  ∧ validateMenuImages Sample.noneIsMenu Sample.threeImages []
    = (false, ClassifyImage <$> Sample.threeImages).
Proof.
  split; [| split].
  - apply (proj1 (validation_short_circuits_and_fails_open
                    Sample.secondIsMenu Sample.threeImages []) 1 (Sample.image "p2")).
    + reflexivity.
    + intros [|j] img Hj Hl; [| lia]. injection Hl as <-.
      apply negative_says. discriminate.
    + left. exists " Yes ". split; reflexivity.
  - apply (proj1 (validation_short_circuits_and_fails_open
                    Sample.secondFails Sample.threeImages []) 1 (Sample.image "p2")).
    + reflexivity.
    + intros [|j] img Hj Hl; [| lia]. injection Hl as <-.
      apply negative_says. discriminate.
    + right. left. reflexivity.
  - apply (proj2 (validation_short_circuits_and_fails_open
                    Sample.noneIsMenu Sample.threeImages [])).
    intros [|[|[|j]]] img Hl; try discriminate Hl; injection Hl as <-.
    + apply negative_says. discriminate.
    + apply negative_says. discriminate.
    + apply negative_no_content.
Defined.

Section Extraction.

Context (w : World).

Lemma extract_run imageData log :
  extractDishesFromImage w imageData log
  = (extracted w (complete w (length log) (ExtractDishes imageData)),
     log ++ [ExtractDishes imageData]).
Proof.
  unfold extractDishesFromImage, mbind, M_bind, create, extracted.
  by destruct (complete w (length log) (ExtractDishes imageData)) as [| |[c|]].
Qed.

Lemma extractAll_run images i allDishes log :
  extractAll w images i allDishes log
  = (allDishes
       ++ concat (imap (fun j imageData =>
                          dishesOfReply w (i + j + 1)
                            (complete w (length log + j) (ExtractDishes imageData)))
                       images),
     log ++ (ExtractDishes <$> images)).
Proof.
  revert i allDishes log.
  induction images as [|imageData rest IH]; intros i allDishes log.
  - cbn. by rewrite !app_nil_r.
  - cbn [extractAll]. unfold mbind, M_bind at 1. rewrite extract_run.
    cbn [imap concat fmap list_fmap]. rewrite !Nat.add_0_r.
    assert (imap (fun j imageData0 =>
                    dishesOfReply w (S i + j + 1)
                      (complete w (length (log ++ [ExtractDishes imageData]) + j)
                         (ExtractDishes imageData0))) rest
            = imap ((fun j imageData0 =>
                       dishesOfReply w (i + j + 1)
                         (complete w (length log + j) (ExtractDishes imageData0))) ∘ S)
                rest) as Hshift.
    { apply imap_ext. intros j img _. cbn. rewrite length_app. cbn.
      by replace (S (i + j + 1)) with (i + S j + 1) by lia;
         replace (length log + 1 + j) with (length log + S j) by lia. }
    unfold dishesOfReply at 1.
    destruct (extracted w (complete w (length log) (ExtractDishes imageData)))
      as [dishes|]; rewrite IH, Hshift, <- !app_assoc; done.
Qed.

Lemma extractAll_images images log :
  extractAll w images 0 [] log
  = (concat (imap (imageDishes w (length log)) images),
     log ++ (ExtractDishes <$> images)).
Proof. rewrite extractAll_run. cbn [app]. done. Qed.

Lemma analyzeImages_unfold reqBody images log :
  analyzeImages w reqBody images log =
    let (areMenuImages, log1) := validateMenuImages w images log in
    if negb areMenuImages then (notMenuImages, log1)
    else
      let (allDishes, log2) := extractAll w images 0 [] log1 in
      match allDishes with
      | [] => (noDishes, log2)
      | _ =>
          if skipRequested reqBody then (ok allDishes, log2)
          else let (enriched, log3) := enrich w allDishes log2 in (ok enriched, log3)
      end.
Proof.
  unfold analyzeImages, mbind, M_bind.
  destruct (validateMenuImages w images log) as [[|] log1]; cbn [negb]; [|done].
  destruct (extractAll w images 0 [] log1) as [[|d allDishes] log2]; [done|].
  by destruct (skipRequested reqBody).
Qed.

End Extraction.

Section RequestsIssued.

Context (w : World).

Lemma pronunciations_log names log :
  (getPronunciationsForNames w names log).2 = log ++ pronunciationRequests names.
Proof.
  unfold getPronunciationsForNames, pronunciationRequests.
  destruct (mapM ToString names) as [listed|]; [| by rewrite app_nil_r].
  unfold mbind, M_bind, create.
  destruct (complete w (length log) (Pronunciations listed)); try done;
    by destruct (fillPronunciations _ _).
Qed.

Lemma allergens_log items log :
  (getAllergensForItems w items log).2 = log ++ allergenRequests items.
Proof.
  unfold getAllergensForItems, allergenRequests.
  destruct (normalizeItems items) as [[|it normalized]|]; try by rewrite app_nil_r.
  unfold mbind, M_bind, create.
  by destruct (complete w (length log) (Allergens (it :: normalized))).
Qed.

Lemma enrich_log allDishes log :
  (enrich w allDishes log).2 = log ++ enrichmentRequests allDishes.
Proof.
  unfold enrich, enrichmentRequests.
  destruct (uniqueNames allDishes) as [|n names] eqn:Hn.
  - cbn. by rewrite app_nil_r.
  - unfold mbind, M_bind.
    pose proof (pronunciations_log (n :: names) log) as Hp.
    destruct (getPronunciationsForNames w (n :: names) log) as [p log1].
    pose proof (allergens_log (itemsOf allDishes) log1) as Ha.
    destruct (getAllergensForItems w (itemsOf allDishes) log1) as [a log2].
    cbn in *. subst. by rewrite app_assoc.
Qed.

Lemma validate_first imageData rest log :
  ∃ later,
    (validateMenuImages w (imageData :: rest) log).2
    = log ++ ClassifyImage imageData :: later.
Proof.
  rewrite validate_cons.
  destruct (complete w (length log) (ClassifyImage imageData)) as [| |content];
    try (by exists []).
  destruct (saysYes content); [by exists []|].
  destruct (validate_log w rest (log ++ [ClassifyImage imageData])) as [n Hn].
  exists (ClassifyImage <$> take n rest). rewrite Hn. by rewrite <- app_assoc.
Qed.

(** The requests of a whole run, stage by stage. *)
Lemma analyzeImages_log reqBody images log :
  ∃ more,
    (analyzeImages w reqBody images log).2
    = (validateMenuImages w images log).2 ++ more.
Proof.
  rewrite analyzeImages_unfold.
  destruct (validateMenuImages w images log) as [[|] log1]; cbn [negb];
    [| exists []; cbn; by rewrite app_nil_r].
  rewrite extractAll_images.
  destruct (concat (imap (imageDishes w (length log1)) images)) as [|d allDishes].
  { by eexists. }
  destruct (skipRequested reqBody); [by eexists|].
  pose proof (enrich_log (d :: allDishes) (log1 ++ (ExtractDishes <$> images))) as He.
  destruct (enrich w (d :: allDishes) _) as [enriched log3].
  cbn in *. subst. rewrite <- app_assoc. by eexists.
Qed.

Lemma analyzeImages_not_size_error reqBody images log :
  ¬ sizePolicyError (analyzeImages w reqBody images log).1.
Proof.
  rewrite analyzeImages_unfold.
  destruct (validateMenuImages w images log) as [[|] log1]; cbn [negb].
  - destruct (extractAll w images 0 [] log1) as [[|d allDishes] log2].
    + intros [H | H]; discriminate H.
    + destruct (skipRequested reqBody).
      * intros [H | H]; discriminate H.
      * destruct (enrich w (d :: allDishes) log2). intros [H | H]; discriminate H.
  - intros [H | H]; discriminate H.
Qed.

End RequestsIssued.

(** C8: a batch of zero images or of more than five is answered with
    status 400 and a size-policy error while the log of requests is left as
    it was; a batch of one to five images gets no size-policy error and
    enters validation, the first request issued being the classification of
    its first image. *)
Theorem batch_size_policy
    (w : World) (reqBody : obj) (images : list value) (log : list Request) :
  reqBody !! "images" = Some (JArr images) →
  (length images = 0 ∨ 5 < length images →
     sizePolicyError (analyzeMenu w reqBody log).1
     ∧ status (analyzeMenu w reqBody log).1 = 400
     ∧ (analyzeMenu w reqBody log).2 = log)
  ∧ (1 ≤ length images ≤ 5 →
     ¬ sizePolicyError (analyzeMenu w reqBody log).1
     ∧ ∃ imageData later,
         images !! 0 = Some imageData
         ∧ (analyzeMenu w reqBody log).2 = log ++ ClassifyImage imageData :: later).
Proof.
  intros Himages. unfold analyzeMenu. rewrite Himages. split.
  - intros [Hlen | Hlen].
    + destruct images; [| done]. cbn. split; [by left | done].
    + destruct images as [|imageData rest]; [cbn in Hlen; lia|].
      apply Nat.ltb_lt in Hlen. rewrite Hlen. cbn. split; [by right | done].
  - intros [Hlo Hhi].
    destruct images as [|imageData rest]; [cbn in Hlo; lia|].
    assert ((5 <? length (imageData :: rest)) = false) as -> by (apply Nat.ltb_ge; lia).
    split; [apply analyzeImages_not_size_error|].
    destruct (analyzeImages_log w reqBody (imageData :: rest) log) as [more Hmore].
    destruct (validate_first w imageData rest log) as [later Hlater].
    exists imageData, (later ++ more). split; [done|].
    rewrite Hmore, Hlater. by rewrite <- app_assoc.
Qed.

Lemma batch_size_witness :
  (analyzeMenu Sample.noneIsMenu (Sample.request []) []).2 = []
  ∧ (analyzeMenu Sample.noneIsMenu (Sample.request (Sample.threeImages ++ Sample.threeImages)) []).2 = []
  ∧ ¬ sizePolicyError (analyzeMenu Sample.noneIsMenu (Sample.request Sample.threeImages) []).1.
Proof.
  split; [| split].
  - apply (proj1 (batch_size_policy Sample.noneIsMenu (Sample.request []) [] []
                    ltac:(reflexivity))).
    left. reflexivity.
  - apply (proj1 (batch_size_policy Sample.noneIsMenu
                    (Sample.request (Sample.threeImages ++ Sample.threeImages))
                    (Sample.threeImages ++ Sample.threeImages) []
                    ltac:(reflexivity))).
    right. cbn. lia.
  - apply (proj2 (batch_size_policy Sample.noneIsMenu
                    (Sample.request Sample.threeImages) Sample.threeImages []
                    ltac:(reflexivity))).
    cbn. lia.
Defined.

Section Records.

Context (w : World).

Lemma validDish_inv v :
  validDish v = true → ∃ o, v = JObj o ∧ validRecord o.
Proof.
  unfold validDish. intros H.
  repeat (apply andb_prop in H as [H ?]).
  destruct v as [| | | |l|o|b]; try done.
  exists o. split; [done|]. cbn in *.
  destruct (o !! "original_name") as [[]|] eqn:Hn; try done.
  destruct (o !! "simple_description") as [[]|] eqn:Hs; try done.
  destruct (o !! "nutrition") as [[]|] eqn:Hu; try done.
  - split; [by eexists | split; [by eexists | right; by eexists]].
  - split; [by eexists | split; [by eexists | left; by eexists]].
Qed.

Lemma fallbackDish_valid : ∃ o, fallbackDish = JObj o ∧ validRecord o.
Proof.
  eexists. split; [reflexivity|].
  split; [| split; [| left]]; eexists; reflexivity.
Qed.

Lemma dishesOfContent_valid content v :
  v ∈ dishesOfContent w content → ∃ o, v = JObj o ∧ validRecord o.
Proof.
  unfold dishesOfContent.
  destruct (JSON_parse w content) as [[| | | |dishes| |]|];
    try (intros ->%list_elem_of_singleton; apply fallbackDish_valid).
  intros [Hv _]%list_elem_of_filter. apply validDish_inv. by destruct (validDish v).
Qed.

Lemma withPage_valid page o :
  validRecord o → validRecord (withPage page (JObj o)).
Proof.
  unfold validRecord, withPage. cbn [spread].
  rewrite !lookup_insert_ne by done. done.
Qed.

Lemma withPage_page page v : withPage page v !! "page" = Some (ofNat page).
Proof. unfold withPage. apply lookup_insert_eq. Qed.

Lemma dishesOfReply_spec page r d :
  d ∈ dishesOfReply w page r →
  validRecord d ∧ d !! "page" = Some (ofNat page).
Proof.
  unfold dishesOfReply, extracted.
  destruct r as [| |[c|]]; try (by intros ?%elem_of_nil).
  intros (v & -> & Hv)%list_elem_of_fmap.
  apply dishesOfContent_valid in Hv as (o & -> & Ho).
  split; [by apply withPage_valid | apply withPage_page].
Qed.

Lemma elem_of_concat {A} (x : A) (ls : list (list A)) :
  x ∈ concat ls ↔ ∃ l, l ∈ ls ∧ x ∈ l.
Proof.
  rewrite list_elem_of_In, in_concat. split; intros (l & H1 & H2); exists l.
  - by rewrite !list_elem_of_In.
  - by rewrite <- !list_elem_of_In.
Qed.

Lemma imageDishes_elem start images d :
  d ∈ concat (imap (imageDishes w start) images) ↔
  ∃ k imageData, images !! k = Some imageData ∧ d ∈ imageDishes w start k imageData.
Proof.
  rewrite elem_of_concat. split.
  - intros (l & (k & img & -> & Hk)%elem_of_lookup_imap & Hd). eauto.
  - intros (k & img & Hk & Hd). eexists. split; [| done].
    by apply elem_of_lookup_imap_2.
Qed.

Lemma extractAll_valid images log :
  Forall validRecord (extractAll w images 0 [] log).1.
Proof.
  rewrite extractAll_images. cbn. apply Forall_forall.
  intros d (k & img & _ & Hd)%imageDishes_elem.
  by apply dishesOfReply_spec in Hd as [? _].
Qed.

(** *** The merge *)

Lemma enrichDish_frame p a d d' k :
  enrichDish w p a d = Some d' →
  k ≠ "pronunciation" → k ≠ "allergens" → d' !! k = d !! k.
Proof.
  unfold enrichDish. destruct (ToPropertyKey (d !! "original_name")) as [key|]; [|done].
  cbn. intros [= <-] Hp Ha. rewrite lookup_insert_ne by done.
  unfold set. destruct (or_else _ _).
  - by rewrite lookup_insert_ne.
  - by rewrite lookup_delete_ne.
Qed.

Lemma enrichAll_length p a allDishes :
  length (enrichAll w p a allDishes) = length allDishes.
Proof.
  induction allDishes as [|d rest IH]; [done|]. cbn.
  destruct (enrichDish w p a d); cbn; [by rewrite IH | done].
Qed.

Lemma enrichAll_frame p a allDishes i d d' k :
  allDishes !! i = Some d → enrichAll w p a allDishes !! i = Some d' →
  k ≠ "pronunciation" → k ≠ "allergens" → d' !! k = d !! k.
Proof.
  revert i. induction allDishes as [|d0 rest IH]; intros i Hd Hd' Hp Ha; [done|].
  cbn in Hd'. destruct (enrichDish w p a d0) as [d0'|] eqn:He.
  - destruct i as [|i]; cbn in *.
    + injection Hd as ->. injection Hd' as ->. by eapply enrichDish_frame.
    + by eapply IH.
  - rewrite Hd in Hd'. by injection Hd' as ->.
Qed.

Lemma enrich_result allDishes log :
  ∃ p a, (enrich w allDishes log).1 = enrichAll w p a allDishes.
Proof.
  unfold enrich. destruct (uniqueNames allDishes) as [|n names].
  - by exists emptyDict, ∅.
  - unfold mbind, M_bind.
    destruct (getPronunciationsForNames w (n :: names) log) as [p log1].
    destruct (getAllergensForItems w (itemsOf allDishes) log1) as [a log2].
    by eexists _, _.
Qed.

End Records.

(** C10: the enrichment stage returns as many records as it was given, in
    the same positions, and a record differs from the one it was given in
    its [pronunciation] and [allergens] properties at most: every other
    property ([original_name], [simple_description], [nutrition], [page]
    among them) reads as before. *)
Theorem enrichment_changes_two_fields_only
    (w : World) (allDishes : list obj) (log : list Request) :
  length (enrich w allDishes log).1 = length allDishes
  ∧ ∀ i d d' k,
      allDishes !! i = Some d →
      (enrich w allDishes log).1 !! i = Some d' →
      k ≠ "pronunciation" → k ≠ "allergens" →
      d' !! k = d !! k.
Proof.
  destruct (enrich_result w allDishes log) as (p & a & ->). split.
  - apply enrichAll_length.
  - intros i d d' k. apply enrichAll_frame.
Qed.

Lemma enrichment_witness :
  length (enrich Sample.twoPages
            [withPage 1 (Sample.dish "Gyoza" "This is a dumpling." "Medium" "Low" "Medium")]
            []).1 = 1.
Proof.
  apply (proj1 (enrichment_changes_two_fields_only Sample.twoPages
                  [withPage 1 (Sample.dish "Gyoza" "This is a dumpling." "Medium" "Low" "Medium")]
                  [])).
Defined.

(** C7: once validation has passed, an image whose extraction request is
    rejected adds no record, and the loop still issues the extraction
    request of every image, in order.  The records gathered are those of
    the images one after the other.  When there is none, the answer is the
    422 response and the log ends with the extraction requests, so that no
    enrichment request was issued; when there is one at least, the answer is
    a 200 response with as many records. *)
Theorem failed_extraction_is_skipped
    (w : World) (reqBody : obj) (images : list value) (log : list Request) :
  reqBody !! "images" = Some (JArr images) →
  1 ≤ length images ≤ 5 →
  (validateMenuImages w images log).1 = true →
  let log1 := (validateMenuImages w images log).2 in
  let allDishes := concat (imap (imageDishes w (length log1)) images) in
  (∀ k imageData,
     images !! k = Some imageData →
     complete w (length log1 + k) (ExtractDishes imageData) = Rejected →
     imageDishes w (length log1) k imageData = [])
  ∧ extractAll w images 0 [] log1 = (allDishes, log1 ++ (ExtractDishes <$> images))
  ∧ (allDishes = [] →
     analyzeMenu w reqBody log = (noDishes, log1 ++ (ExtractDishes <$> images))
     ∧ status noDishes = 422)
  ∧ (allDishes ≠ [] →
     ∃ dishes more,
       analyzeMenu w reqBody log
       = (ok dishes, log1 ++ (ExtractDishes <$> images) ++ more)
       ∧ length dishes = length allDishes).
Proof.
  intros Himages [Hlo Hhi] Hvalid log1 allDishes.
  assert (analyzeMenu w reqBody log = analyzeImages w reqBody images log) as Hrun.
  { unfold analyzeMenu. rewrite Himages.
    destruct images; [cbn in Hlo; lia|].
    by assert ((5 <? length (v :: images)) = false) as -> by (apply Nat.ltb_ge; lia). }
  rewrite Hrun, analyzeImages_unfold.
  subst log1 allDishes.
  destruct (validateMenuImages w images log) as [v log1]. cbn in Hvalid. subst v.
  cbn [negb fst snd]. rewrite extractAll_images.
  split; [| split; [done | split]].
  - intros k imageData _ Hr. unfold imageDishes. by rewrite Hr.
  - by intros ->.
  - intros Hne.
    destruct (concat (imap (imageDishes w (length log1)) images)) as [|d allDishes]; [done|].
    destruct (skipRequested reqBody).
    + exists (d :: allDishes), []. by rewrite app_nil_r.
    + pose proof (enrich_log w (d :: allDishes) (log1 ++ (ExtractDishes <$> images))) as Hl.
      pose proof (enrich_result w (d :: allDishes) (log1 ++ (ExtractDishes <$> images)))
        as (p & a & He).
      destruct (enrich w (d :: allDishes) (log1 ++ (ExtractDishes <$> images)))
        as [enriched log3].
      cbn [fst snd] in Hl, He. subst. eexists _, _. split.
      * by rewrite <- app_assoc.
      * apply enrichAll_length.
Qed.

Lemma failed_extraction_witness :
  (∃ dishes more,
     analyzeMenu Sample.secondPageFails (Sample.request Sample.twoImages) []
     = (ok dishes,
        [ClassifyImage (Sample.image "p1")]
          ++ (ExtractDishes <$> Sample.twoImages) ++ more)
     ∧ length dishes = 2)
  ∧ analyzeMenu Sample.noPageReadable (Sample.request Sample.twoImages) []
    = (noDishes, [ClassifyImage (Sample.image "p1")] ++ (ExtractDishes <$> Sample.twoImages)).
Proof.
  split.
  - apply (failed_extraction_is_skipped Sample.secondPageFails
             (Sample.request Sample.twoImages) Sample.twoImages []
             ltac:(reflexivity) ltac:(cbn; lia) ltac:(reflexivity)).
    discriminate.
  - apply (failed_extraction_is_skipped Sample.noPageReadable
             (Sample.request Sample.twoImages) Sample.twoImages []
             ltac:(reflexivity) ltac:(cbn; lia) ltac:(reflexivity)).
    reflexivity.
Defined.

Section Outcome.

Context (w : World).

(** What a 200 response tells about the run that produced it. *)
Lemma analyzeMenu_ok_inv reqBody log dishes :
  (analyzeMenu w reqBody log).1 = ok dishes →
  ∃ images,
    reqBody !! "images" = Some (JArr images)
    ∧ 1 ≤ length images ≤ 5
    ∧ (validateMenuImages w images log).1 = true
    ∧ let log1 := (validateMenuImages w images log).2 in
      let allDishes := concat (imap (imageDishes w (length log1)) images) in
      allDishes ≠ []
      ∧ ((skipRequested reqBody = true ∧ dishes = allDishes)
         ∨ (skipRequested reqBody = false ∧ ∃ p a, dishes = enrichAll w p a allDishes)).
Proof.
  unfold analyzeMenu.
  destruct (reqBody !! "images") as [[| | | |images| |]|] eqn:Himages; try done.
  destruct images as [|imageData rest]; [done|].
  destruct (5 <? length (imageData :: rest)) eqn:Hlen; [done|].
  apply Nat.ltb_ge in Hlen.
  rewrite analyzeImages_unfold. intros Hrun.
  exists (imageData :: rest). split; [done|]. split; [cbn in *; lia|].
  destruct (validateMenuImages w (imageData :: rest) log) as [[|] log1];
    cbn [negb fst snd] in *; [| done].
  split; [done|]. rewrite extractAll_images in Hrun.
  destruct (concat (imap (imageDishes w (length log1)) (imageData :: rest)))
    as [|d allDishes]; [done|].
  split; [done|].
  destruct (skipRequested reqBody).
  - left. cbn in Hrun. by injection Hrun as <-.
  - right. split; [done|].
    pose proof (enrich_result w (d :: allDishes)
                  (log1 ++ (ExtractDishes <$> imageData :: rest))) as (p & a & He).
    destruct (enrich w (d :: allDishes) _) as [enriched log3].
    cbn [fst snd] in *. injection Hrun as <-. eauto.
Qed.

Lemma enrichDish_valid p a d n :
  d !! "original_name" = Some (JStr n) →
  enrichDish w p a d
  = Some (<["allergens" := JStr (allergenText (Lookup (methods w) (JObj a) n))]>
            (set "pronunciation" (or_else (read (methods w) p n) (Some (JStr n))) d)).
Proof. unfold enrichDish. by intros ->. Qed.

Lemma lookup_set k ov (o : obj) : set k ov o !! k = ov.
Proof.
  unfold set. destruct ov; [apply lookup_insert_eq | apply lookup_delete_eq].
Qed.

Lemma enrichAll_elem p a allDishes d' :
  Forall validRecord allDishes →
  d' ∈ enrichAll w p a allDishes →
  ∃ d n,
    d ∈ allDishes
    ∧ d !! "original_name" = Some (JStr n)
    ∧ d' !! "original_name" = Some (JStr n)
    ∧ d' !! "pronunciation" = or_else (read (methods w) p n) (Some (JStr n))
    ∧ d' !! "allergens" = Some (JStr (allergenText (Lookup (methods w) (JObj a) n))).
Proof.
  induction 1 as [|d rest [[n Hn] _] Hrest IH]; [by intros ?%elem_of_nil|].
  cbn. rewrite (enrichDish_valid p a d n Hn).
  intros [-> | Hin]%elem_of_cons.
  - exists d, n. split; [by left|]. split; [done|].
    rewrite !lookup_insert_ne by done. rewrite lookup_insert_eq, lookup_set.
    split; [| done].
    unfold set. destruct (or_else _ _);
      [by rewrite lookup_insert_ne | by rewrite lookup_delete_ne].
  - destruct (IH Hin) as (d0 & n0 & ? & ?). exists d0, n0. split; [by right | done].
Qed.

Lemma enrichAll_preserves_valid p a allDishes :
  Forall validRecord allDishes → Forall validRecord (enrichAll w p a allDishes).
Proof.
  intros Hall. apply Forall_lookup. intros i d' Hd'.
  assert (i < length allDishes) as Hi.
  { rewrite <- (enrichAll_length w p a). by eapply lookup_lt_Some. }
  destruct (lookup_lt_is_Some_2 _ _ Hi) as [d Hd].
  pose proof (Forall_lookup_1 _ _ _ _ Hall Hd) as Hvalid.
  unfold validRecord in *.
  by rewrite !(enrichAll_frame w p a allDishes i d d' _ Hd Hd').
Qed.

End Outcome.

(** C1 (as amended): every record of a 200 response has passed the filter
    of the extraction or is its default dish: [original_name] and
    [simple_description] are strings, possibly empty, and [nutrition] is an
    object or an array, whatever its fields. *)
Theorem returned_records_passed_the_filter
    (w : World) (reqBody : obj) (log : list Request) (dishes : list obj) :
  (analyzeMenu w reqBody log).1 = ok dishes →
  ∀ d, d ∈ dishes → validRecord d.
Proof.
  intros (images & _ & _ & _ & _ & Hdishes)%analyzeMenu_ok_inv.
  apply Forall_forall.
  pose proof (extractAll_valid w images (validateMenuImages w images log).2) as Hvalid.
  rewrite extractAll_images in Hvalid. cbn [fst] in Hvalid.
  destruct Hdishes as [[_ ->] | [_ (p & a & ->)]]; [done|].
  by apply enrichAll_preserves_valid.
Qed.

Lemma returned_records_witness :
  Forall validRecord
    (dishesOf (analyzeMenu Sample.twoPages (Sample.request Sample.twoImages) []).1).
Proof.
  apply Forall_forall.
  apply (returned_records_passed_the_filter
           Sample.twoPages (Sample.request Sample.twoImages) []).
  reflexivity.
Defined.

(** C1 as stated fails: a reply that parses to a list whose element has an
    empty name, an empty description and a nutrition without fields yields
    a 200 response with that very record. *)
Lemma nameless_record_is_returned :
  ∃ d,
    (analyzeMenu Sample.namelessPage (Sample.request [Sample.image "p1"]) []).1 = ok [d]
    ∧ d !! "original_name" = Some (JStr empty)
    ∧ d !! "simple_description" = Some (JStr empty)
    ∧ d !! "nutrition" = Some (JObj ∅)
    ∧ ¬ (∃ n, d !! "original_name" = Some (JStr n) ∧ n ≠ empty).
Proof.
  eexists. split; [vm_compute; reflexivity|].
  split; [reflexivity|]. split; [reflexivity|]. split; [reflexivity|].
  intros (n & Hn & Hne). vm_compute in Hn. by injection Hn as <-.
Qed.

(** C9: in a 200 response the records are those that the images added, in
    the order of the images and, within an image, of its filtered list.
    Every record that image [k] adds carries [page = k + 1], set when it is
    added; the record returned at a position has the page and the name of
    the record gathered at that position.  No two records are merged; when
    enrichment ran, two records with the same name have the same
    pronunciation and the same allergens. *)
Theorem page_is_set_once_and_kept
    (w : World) (reqBody : obj) (images : list value) (log : list Request)
    (dishes : list obj) :
  reqBody !! "images" = Some (JArr images) →
  (analyzeMenu w reqBody log).1 = ok dishes →
  let start := length (validateMenuImages w images log).2 in
  let allDishes := concat (imap (imageDishes w start) images) in
  (∀ k imageData d,
     images !! k = Some imageData →
     d ∈ imageDishes w start k imageData →
     d !! "page" = Some (ofNat (k + 1)))
  ∧ length dishes = length allDishes
  ∧ (∀ i d d',
       allDishes !! i = Some d → dishes !! i = Some d' →
       d' !! "page" = d !! "page" ∧ d' !! "original_name" = d !! "original_name")
  ∧ (skipRequested reqBody = false →
     ∀ d1 d2,
       d1 ∈ dishes → d2 ∈ dishes →
       d1 !! "original_name" = d2 !! "original_name" →
       d1 !! "pronunciation" = d2 !! "pronunciation"
       ∧ d1 !! "allergens" = d2 !! "allergens").
Proof.
  intros Himages (images' & Himages' & _ & _ & _ & Hdishes)%analyzeMenu_ok_inv start allDishes.
  rewrite Himages in Himages'. injection Himages' as <-.
  fold start in Hdishes. fold allDishes in Hdishes.
  assert (Forall validRecord allDishes) as Hvalid.
  { pose proof (extractAll_valid w images (validateMenuImages w images log).2) as H.
    by rewrite extractAll_images in H. }
  split.
  { intros k imageData d _ Hd. by apply dishesOfReply_spec in Hd as [_ ?]. }
  destruct Hdishes as [[Hskip ->] | [Hskip (p & a & ->)]].
  - split; [done|]. split.
    + intros i d d' Hd Hd'. rewrite Hd in Hd'. by injection Hd' as ->.
    + by rewrite Hskip.
  - split; [apply enrichAll_length|]. split.
    + intros i d d' Hd Hd'.
      by rewrite !(enrichAll_frame w p a allDishes i d d' _ Hd Hd').
    + intros _ d1 d2 H1 H2 Hsame.
      apply (enrichAll_elem w p a allDishes d1 Hvalid) in H1
        as (_ & n1 & _ & _ & Hn1 & -> & ->).
      apply (enrichAll_elem w p a allDishes d2 Hvalid) in H2
        as (_ & n2 & _ & _ & Hn2 & -> & ->).
      rewrite Hn1, Hn2 in Hsame. by injection Hsame as ->.
Qed.

Lemma page_witness :
  let dishes := dishesOf (analyzeMenu Sample.twoPages (Sample.request Sample.twoImages) []).1 in
  length dishes = 3
  ∧ (dishes !! 0 ≫= (.!! "page")) = Some (ofNat 1)
  ∧ (dishes !! 2 ≫= (.!! "page")) = Some (ofNat 2)
  ∧ ∀ d1 d2,
      d1 ∈ dishes → d2 ∈ dishes →
      d1 !! "original_name" = d2 !! "original_name" →
      d1 !! "pronunciation" = d2 !! "pronunciation"
      ∧ d1 !! "allergens" = d2 !! "allergens".
Proof.
  intros dishes.
  pose proof (page_is_set_once_and_kept
                Sample.twoPages (Sample.request Sample.twoImages) Sample.twoImages []
                dishes ltac:(reflexivity) ltac:(reflexivity)) as (_ & Hlen & _ & Hsame).
  split; [exact Hlen|]. split; [reflexivity|]. split; [reflexivity|].
  apply Hsame. reflexivity.
Defined.

(** C3 (as amended): when validation has passed and some record was
    gathered, a request that asks to skip enrichment is answered with the
    gathered records as they are.  The requests of the run are
    classifications followed by the extractions, none of the enrichment
    stage.  Each record is an element of the list extracted for its image,
    with the page put on it; its [pronunciation] and [allergens] are those
    of that element, missing unless the parsed reply carried them. *)
Theorem skip_returns_gathered_records
    (w : World) (reqBody : obj) (images : list value) (log : list Request) :
  reqBody !! "images" = Some (JArr images) →
  1 ≤ length images ≤ 5 →
  (validateMenuImages w images log).1 = true →
  skipRequested reqBody = true →
  let log1 := (validateMenuImages w images log).2 in
  let allDishes := concat (imap (imageDishes w (length log1)) images) in
  allDishes ≠ [] →
  analyzeMenu w reqBody log = (ok allDishes, log1 ++ (ExtractDishes <$> images))
  ∧ (∃ n, log1 = log ++ (ClassifyImage <$> take n images))
  ∧ ∀ d, d ∈ allDishes →
      ∃ k imageData dishes v,
        images !! k = Some imageData
        ∧ extracted w (complete w (length log1 + k) (ExtractDishes imageData)) = Some dishes
        ∧ v ∈ dishes
        ∧ d = withPage (k + 1) v
        ∧ d !! "pronunciation" = Get v "pronunciation"
        ∧ d !! "allergens" = Get v "allergens".
Proof.
  intros Himages [Hlo Hhi] Hvalid Hskip log1 allDishes Hne.
  split; [| split].
  - unfold analyzeMenu. rewrite Himages.
    destruct images as [|imageData rest] eqn:Hi; [cbn in Hlo; lia|].
    assert ((5 <? length (imageData :: rest)) = false) as -> by (apply Nat.ltb_ge; lia).
    rewrite analyzeImages_unfold. subst allDishes log1.
    destruct (validateMenuImages w (imageData :: rest) log) as [v log1].
    cbn [fst snd] in *. subst v. cbn [negb]. rewrite extractAll_images.
    destruct (concat (imap (imageDishes w (length log1)) (imageData :: rest))); [done|].
    by rewrite Hskip.
  - apply validate_log.
  - intros d (k & imageData & Hk & Hd)%imageDishes_elem.
    unfold imageDishes, dishesOfReply in Hd.
    destruct (extracted w (complete w (length log1 + k) (ExtractDishes imageData)))
      as [dishes|] eqn:He; [| by apply elem_of_nil in Hd].
    apply list_elem_of_fmap in Hd as (v & -> & Hv).
    exists k, imageData, dishes, v. do 4 (split; [done|]).
    assert (∃ o, v = JObj o) as [o ->].
    { unfold extracted in He.
      destruct (complete w (length log1 + k) (ExtractDishes imageData)) as [| |[c|]];
        try done.
      injection He as <-. apply dishesOfContent_valid in Hv as (o & -> & _). eauto. }
    unfold withPage. cbn [spread Get]. by rewrite !lookup_insert_ne.
Qed.

Lemma skip_witness :
  let run := analyzeMenu Sample.twoPages (Sample.skipping (Sample.request Sample.twoImages)) [] in
  run.2 = [ClassifyImage (Sample.image "p1"); ExtractDishes (Sample.image "p1");
           ExtractDishes (Sample.image "p2")]
  ∧ length (dishesOf run.1) = 3.
Proof.
  intros run.
  pose proof (skip_returns_gathered_records
                Sample.twoPages (Sample.skipping (Sample.request Sample.twoImages))
                Sample.twoImages []
                ltac:(reflexivity) ltac:(cbn; lia) ltac:(reflexivity) ltac:(reflexivity)
                ltac:(discriminate)) as [Hrun _].
  subst run. rewrite Hrun. split; reflexivity.
Defined.

(** C3 as stated fails: with [skip_enrichment: true] the records come back
    without a [pronunciation] and without an [allergens] property. *)
Lemma skip_leaves_pronunciation_unset :
  ∃ dishes,
    (analyzeMenu Sample.twoPages (Sample.skipping (Sample.request Sample.twoImages)) []).1
    = ok dishes
    ∧ dishes ≠ []
    ∧ ∀ d, d ∈ dishes →
        d !! "pronunciation" = None
        ∧ d !! "allergens" = None
        ∧ d !! "pronunciation" ≠ d !! "original_name"
        ∧ d !! "allergens" ≠ Some (JStr empty).
Proof.
  eexists. split; [vm_compute; reflexivity|]. split; [discriminate|].
  intros d Hd. repeat (apply elem_of_cons in Hd as [-> | Hd]); [| | | by apply elem_of_nil in Hd];
    (split; [reflexivity|]); (split; [reflexivity|]); split; discriminate.
Qed.

(** A reply on which [JSON.parse] throws, or that parses to something other
    than an array, is turned into the default dish alone. *)
Lemma unparsable_gives_fallback (w : World) c :
  (∀ dishes, JSON_parse w (stripFences (trim c)) ≠ Some (JArr dishes)) →
  extracted w (Completion (Some c)) = Some [fallbackDish].
Proof.
  intros Hunparsable. unfold extracted, dishesOfContent.
  destruct (JSON_parse w (stripFences (trim c))) as [[| | | |dishes| |]|]; try done.
  by destruct (Hunparsable dishes).
Qed.

(** C2: on a reply that cannot be parsed the image yields one record, named
    [Menu Item], and the run succeeds; but the nutrition of that record has
    the fields [calories], [sugar], [fat] and [greens]: there is no
    [unhealthy_fat], the field that the prompt of the same function asks
    for. *)
Theorem fallback_dish_lacks_unhealthy_fat :
  ∃ d nutrition,
    (analyzeMenu Sample.prosePage (Sample.skipping (Sample.request [Sample.image "p1"])) []).1
    = ok [d]
    ∧ d !! "original_name" = Some (JStr "Menu Item")
    ∧ d !! "page" = Some (ofNat 1)
    ∧ d !! "nutrition" = Some (JObj nutrition)
    ∧ nutrition !! "unhealthy_fat" = None
    ∧ nutrition
      = <["calories" := JStr "Medium"]>
          (<["sugar" := JStr "Low"]>
          (<["fat" := JStr "Medium"]>
          (<["greens" := JStr "Low"]> ∅))).
Proof.
  eexists _, _. split; [vm_compute; reflexivity|].
  repeat split; vm_compute; reflexivity.
Qed.

(** ** Maps filled by a loop of assignments *)

Lemma lookup_put_proto k v (o : obj) : put k v o !! "__proto__" = o !! "__proto__".
Proof.
  unfold put. destruct (String.eqb k "__proto__") eqn:Hk; [done|].
  apply String.eqb_neq in Hk. by rewrite lookup_insert_ne.
Qed.

Lemma lookup_put_eq k v (o : obj) : k ≠ "__proto__" → put k v o !! k = Some v.
Proof.
  intros Hk%String.eqb_neq. unfold put. rewrite Hk. apply lookup_insert_eq.
Qed.

Lemma lookup_put_ne k k' v (o : obj) : k ≠ k' → put k v o !! k' = o !! k'.
Proof.
  intros Hne. unfold put. destruct (String.eqb k "__proto__"); [done|].
  by rewrite lookup_insert_ne.
Qed.

Section Filling.

Context {A : Type} (f : A → option (string * value)).

Lemma foldl_assign_None l : foldl (assign f) None l = None.
Proof. by induction l. Qed.

Lemma assign_step m0 x :
  assign f (Some m0) x = (fun kv => put kv.1 kv.2 m0) <$> f x.
Proof. unfold assign. cbn. by destruct (f x). Qed.

(** The key [__proto__] is never created; any other key holds what the
    last turn that assigns it has put there. *)
Lemma foldl_assign_Some l m0 m :
  foldl (assign f) (Some m0) l = Some m →
  (∀ x, x ∈ l → is_Some (f x))
  ∧ m !! "__proto__" = m0 !! "__proto__"
  ∧ ∀ k, k ≠ "__proto__" →
      (m !! k = m0 !! k ∧ ∀ x kv, x ∈ l → f x = Some kv → kv.1 ≠ k)
      ∨ (∃ x kv, x ∈ l ∧ f x = Some kv ∧ kv.1 = k ∧ m !! k = Some kv.2).
Proof.
  revert m0. induction l as [|x r IH]; intros m0 Hm.
  - injection Hm as <-. split; [by intros x ?%elem_of_nil|]. split; [done|].
    intros k _. left. split; [done|]. by intros x kv ?%elem_of_nil.
  - cbn [foldl] in Hm. rewrite assign_step in Hm.
    destruct (f x) as [kv|] eqn:Hx; cbn [fmap option_fmap option_map] in Hm;
      [| by rewrite foldl_assign_None in Hm].
    destruct (IH _ Hm) as (Hall & Hproto & Hkeys). split; [| split].
    + intros y [-> | Hy]%elem_of_cons; [by rewrite Hx | by apply Hall].
    + by rewrite Hproto, lookup_put_proto.
    + intros k Hk.
      destruct (Hkeys k Hk) as [[Hmk Hnone] | (y & kv' & Hy & Hfy & Hkv & Hmk)].
      * destruct (decide (kv.1 = k)) as [<- | Hne].
        -- right. exists x, kv. rewrite Hmk, lookup_put_eq by done.
           split; [by left | done].
        -- left. rewrite Hmk, lookup_put_ne by done. split; [done|].
           intros y kv' [-> | Hy]%elem_of_cons Hfy; [| by eapply Hnone].
           rewrite Hx in Hfy. by injection Hfy as <-.
      * right. exists y, kv'. split; [by right | done].
Qed.

Lemma foldl_assign_total l m0 :
  (∀ x, x ∈ l → is_Some (f x)) → is_Some (foldl (assign f) (Some m0) l).
Proof.
  revert m0. induction l as [|x r IH]; intros m0 Hall; [by eexists|].
  cbn [foldl]. rewrite assign_step.
  destruct (Hall x ltac:(by left)) as [kv ->]. cbn.
  apply IH. intros y Hy. apply Hall. by right.
Qed.

(** A loop whose turns assign strings under the keys of its elements
    leaves a map over the keys other than [__proto__]. *)
Lemma filled_keys (key : A → string) l m :
  (∀ x kv, x ∈ l → f x = Some kv → kv.1 = key x ∧ ∃ s, kv.2 = JStr s) →
  foldl (assign f) (Some ∅) l = Some m →
  totalOver (assignable (key <$> l)) m.
Proof.
  intros Hf (Hall & Hproto & Hkeys)%foldl_assign_Some. split.
  - intros k. unfold assignable. rewrite list_elem_of_filter, list_elem_of_fmap.
    destruct (decide (k = "__proto__")) as [-> | Hk].
    { rewrite Hproto, lookup_empty. split; [by intros [? ?] | by intros [? _]]. }
    destruct (Hkeys k Hk) as [[Hmk Hnone] | (x & kv & Hx & Hfx & Hkv & Hmk)].
    + rewrite Hmk, lookup_empty. split; [by intros [? ?]|].
      intros [_ (x & -> & Hx)]. destruct (Hall x Hx) as [kv Hkv].
      destruct (Hf x kv Hx Hkv) as [Hkey _]. by destruct (Hnone x kv Hx Hkv).
    + rewrite Hmk. split; [| by eexists]. intros _. split; [done|].
      exists x. split; [| done]. destruct (Hf x kv Hx Hfx) as [Hkey _]. congruence.
  - intros k v Hv. destruct (decide (k = "__proto__")) as [-> | Hk].
    { by rewrite Hproto, lookup_empty in Hv. }
    destruct (Hkeys k Hk) as [[Hmk _] | (x & kv & Hx & Hfx & Hkv & Hmk)].
    + by rewrite Hmk, lookup_empty in Hv.
    + rewrite Hmk in Hv. injection Hv as <-. by destruct (Hf x kv Hx Hfx) as [_ ?].
Qed.

(** When every turn assigns the text [g k] under its key [k], so does the
    map hold it. *)
Lemma uniform_fill (key : A → string) (g : string → string) l :
  (∀ x, x ∈ l → f x = Some (key x, JStr (g (key x)))) →
  ∃ m, foldl (assign f) (Some ∅) l = Some m
       ∧ totalOver (assignable (key <$> l)) m
       ∧ ∀ n, n ∈ assignable (key <$> l) → m !! n = Some (JStr (g n)).
Proof.
  intros Hf.
  destruct (foldl_assign_total l ∅) as [m Hm].
  { intros x Hx. by rewrite Hf. }
  exists m. split; [done|]. split.
  - eapply filled_keys; [| done]. intros x kv Hx Hkv.
    rewrite Hf in Hkv by done. injection Hkv as <-. cbn. eauto.
  - apply foldl_assign_Some in Hm as (_ & _ & Hkeys).
    intros n [Hn (x & -> & Hx)%list_elem_of_fmap]%list_elem_of_filter.
    destruct (Hkeys _ Hn) as [[_ Hnone] | (y & kv & Hy & Hfy & Hkv & Hmk)].
    + by destruct (Hnone x _ Hx (Hf x Hx)).
    + rewrite Hf in Hfy by done. injection Hfy as <-. cbn in *. by rewrite Hmk, Hkv.
Qed.

End Filling.

Lemma foldl_ext_fun {A B} (f g : B → A → B) (l : list A) (b : B) :
  (∀ b x, f b x = g b x) → foldl f b l = foldl g b l.
Proof.
  intros Hfg. revert b. induction l as [|x r IH]; intros b; [done|].
  cbn. by rewrite Hfg, IH.
Qed.

(** ** What every object inherits *)

Lemma objectMethod_In k f : objectMethod k = Some f → In (k, f) objectMethods.
Proof.
  unfold objectMethod.
  destruct (List.find _ objectMethods) as [[k' f']|] eqn:Hfind; [| done].
  cbn. intros [= <-]. apply List.find_some in Hfind as [Hin Hk].
  cbn in Hk. by apply String.eqb_eq in Hk as ->.
Qed.

(** Neither the text of a method nor its key has white space at either
    end; neither is empty, and no method is named [__proto__]. *)
Lemma objectMethod_text k f :
  objectMethod k = Some f →
  trim (nativeText f) = nativeText f ∧ nativeText f ≠ empty
  ∧ k ≠ "__proto__" ∧ k ≠ empty ∧ trim k = k.
Proof.
  intros Hin%objectMethod_In. unfold objectMethods in Hin. cbn [In] in Hin.
  repeat (destruct Hin as [[= <- <-] | Hin]; [by vm_compute |]). done.
Qed.

(** Of the objects, only an array converts to the text [__proto__]: the
    value that [fallback[n] = n] hands to the accessor under that key is
    an array or a primitive. *)
Lemma converts_to_proto n :
  ToString n = Some "__proto__" →
  (∃ l, n = JArr l) ∨ (∃ s, n = JStr s) ∨ (∃ r, n = JNum r).
Proof.
  destruct n as [|[|]| | | |o|[[]|f]]; try done.
  - intros _. right. right. by eexists.
  - intros _. right. left. by eexists.
  - intros _. left. by eexists.
  - cbn. by destruct (o !! "toString").
Qed.

Section Inherited.

Context (w : World).

(** [({})[k]] *)
Lemma Lookup_empty k :
  Lookup (methods w) (JObj ∅) k
  = if String.eqb k "__proto__" then Some objectPrototype
    else (fun f => JBuiltin (NativeFunction f)) <$> objectMethod k.
Proof. unfold Lookup, inherited. cbn [Get]. by rewrite lookup_empty. Qed.

(** An inherited property is a built-in, never a text. *)
Lemma inherited_builtin p k v :
  inherited (methods w) p k = Some v → ∃ b, v = JBuiltin b.
Proof.
  unfold inherited. destruct (String.eqb k "__proto__"); [intros [= <-]; eauto|].
  destruct (match p with ObjectPrototype => None | _ => methods w p k end);
    [intros [= <-]; eauto|].
  destruct (objectMethod k); [intros [= <-]; eauto | done].
Qed.

(** An inherited property is never a text: the merge of the allergens
    finds the texts among the own properties of the map. *)
Lemma allergenText_Lookup (a : obj) k :
  allergenText (Lookup (methods w) (JObj a) k) = allergenText (a !! k).
Proof.
  unfold Lookup. cbn [Get]. destruct (a !! k) as [v|]; [done|].
  destruct (inherited (methods w) ObjectPrototype k) as [v|] eqn:Hv; [| done].
  by destruct (inherited_builtin _ _ _ Hv) as [b ->].
Qed.

End Inherited.

(** ** The enrichment helpers on names and items that are strings *)

Section Helpers.

Context (w : World).

Lemma fillPronunciations_assign map names :
  fillPronunciations w map names
  = foldl (assign (pronunciationEntry w map)) (Some ∅) names.
Proof.
  unfold fillPronunciations. apply foldl_ext_fun. intros acc n.
  unfold assign, pronunciationEntry. destruct acc as [m|]; [|done]. cbn.
  destruct (ToString n) as [k|]; [|done]. cbn.
  destruct (LookupV (methods w) map k) as [x|]; [|done]. cbn.
  by destruct (ToPropertyKey (or_else x (Some n))).
Qed.

Lemma fillPronunciations_names map (names : list string) :
  fillPronunciations w map (JStr <$> names)
  = foldl (assign (fun n => pronunciationEntry w map (JStr n))) (Some ∅) names.
Proof. by rewrite fillPronunciations_assign, foldl_fmap. Qed.

(** On names that are strings the [catch] branch leaves the prototype of
    [fallback] alone. *)
Lemma fallbackMap_names (names : list string) :
  fallbackMap (JStr <$> names)
  = (fun m => {| own := m; proto := None |})
      <$> foldl (assign (fun n => Some (n, JStr n))) (Some ∅) names.
Proof.
  unfold fallbackMap, emptyDict. generalize (∅ : obj).
  induction names as [|n names IH]; intros m0; [done|].
  cbn [fmap list_fmap foldl]. rewrite assign_step.
  cbn [fmap option_fmap option_map fst snd ToString mbind option_bind own proto].
  rewrite <- IH. f_equal. unfold put.
  by destruct (String.eqb n "__proto__").
Qed.

Lemma fillAllergens_assign map items :
  fillAllergens w map items = foldl (assign (allergenEntry w map)) (Some ∅) items.
Proof.
  unfold fillAllergens. apply foldl_ext_fun. intros acc it.
  unfold assign, allergenEntry. destruct acc as [m|]; [|done]. cbn.
  destruct (LookupV (methods w) map it.1) as [x|]; [|done]. cbn.
  by destruct (ToPropertyKey (or_else x (Some (JStr empty)))).
Qed.

Lemma fillPronunciations_strings map names filled :
  fillPronunciations w map (JStr <$> names) = Some filled →
  totalOver (assignable names) filled.
Proof.
  rewrite fillPronunciations_names. intros Hfill.
  rewrite <- (list_fmap_id names) at 1. eapply filled_keys; [| done].
  intros n kv _. unfold pronunciationEntry. cbn.
  destruct (LookupV (methods w) map n) as [x|]; [|done]. cbn.
  destruct (ToPropertyKey _) as [s|]; [|done]. intros [= <-]. cbn. eauto.
Qed.

Lemma fallbackMap_strings names :
  ∃ fallback,
    fallbackMap (JStr <$> names) = Some {| own := fallback; proto := None |}
    ∧ totalOver (assignable names) fallback
    ∧ ∀ n, n ∈ assignable names → fallback !! n = Some (JStr n).
Proof.
  rewrite fallbackMap_names.
  destruct (uniform_fill (fun n => Some (n, JStr n)) id id names)
    as (m & Hm & Htotal & Hid); [done|].
  rewrite list_fmap_id in Htotal, Hid. exists m. by rewrite Hm.
Qed.

(** One turn on [{}], the map of a reply that cannot be parsed. *)
Lemma pronunciationEntry_unparsed n :
  pronunciationEntry w (JObj ∅) (JStr n)
  = Some (n, JStr (if String.eqb n "__proto__" then "[object Object]"
                   else unparsedPronunciation n)).
Proof.
  unfold pronunciationEntry, LookupV, unparsedPronunciation.
  cbn [ToString mbind option_bind]. rewrite Lookup_empty.
  destruct (String.eqb n "__proto__"); [done|].
  by destruct (objectMethod n).
Qed.

Lemma fillPronunciations_unparsed names :
  ∃ filled, fillPronunciations w (JObj ∅) (JStr <$> names) = Some filled
            ∧ totalOver (assignable names) filled
            ∧ ∀ n, n ∈ assignable names →
                   filled !! n = Some (JStr (unparsedPronunciation n)).
Proof.
  rewrite fillPronunciations_names.
  destruct (uniform_fill (fun n => pronunciationEntry w (JObj ∅) (JStr n)) id
              (fun n => if String.eqb n "__proto__" then "[object Object]"
                        else unparsedPronunciation n) names)
    as (m & Hm & Htotal & Hid).
  { intros n _. apply pronunciationEntry_unparsed. }
  rewrite list_fmap_id in Htotal, Hid. exists m. split; [done|]. split; [done|].
  intros n Hn. rewrite (Hid n Hn).
  apply list_elem_of_filter in Hn as [Hn%String.eqb_neq _]. by rewrite Hn.
Qed.

Lemma mapM_ToString_strings names : mapM ToString (JStr <$> names) = Some names.
Proof. apply mapM_fmap_Forall_Some. by apply Forall_forall. Qed.

Lemma parseMap_unparsed content :
  JSON_parse w content = None → parseMap w content = JObj ∅.
Proof. unfold parseMap. by intros ->. Qed.

Lemma filled_or_fallback map names :
  ∃ filled,
    match fillPronunciations w map (JStr <$> names) with
    | Some filled => Some {| own := filled; proto := None |}
    | None => fallbackMap (JStr <$> names)
    end = Some {| own := filled; proto := None |}
    ∧ totalOver (assignable names) filled
    ∧ (map = JObj ∅ →
       ∀ n, n ∈ assignable names → filled !! n = Some (JStr (unparsedPronunciation n))).
Proof.
  destruct (fillPronunciations w map (JStr <$> names)) as [filled|] eqn:Hfill.
  - exists filled. split; [done|]. split; [by eapply fillPronunciations_strings|].
    intros ->.
    destruct (fillPronunciations_unparsed names) as (filled' & Hfill' & _ & Hid').
    rewrite Hfill in Hfill'. by injection Hfill' as <-.
  - destruct (fallbackMap_strings names) as (fallback & Hfb & Htotal & Hid).
    exists fallback. split; [done|]. split; [done|]. intros ->.
    destruct (fillPronunciations_unparsed names) as (filled' & Hfill' & _).
    by rewrite Hfill in Hfill'.
Qed.

Lemma pronunciations_total names log :
  let reply := complete w (length log) (Pronunciations names) in
  ∃ filled,
    (getPronunciationsForNames w (JStr <$> names) log).1
    = Some {| own := filled; proto := None |}
    ∧ totalOver (assignable names) filled
    ∧ (reply = Rejected → ∀ n, n ∈ assignable names → filled !! n = Some (JStr n))
    ∧ (reply ≠ Rejected → JSON_parse w (mapText reply) = None →
       ∀ n, n ∈ assignable names →
            filled !! n = Some (JStr (unparsedPronunciation n))).
Proof.
  intros reply. unfold getPronunciationsForNames.
  rewrite mapM_ToString_strings. unfold mbind, M_bind, create. fold reply.
  destruct (filled_or_fallback (parseMap w (mapText reply)) names)
    as (filled & Hfilled & Htotal & Hid).
  destruct reply as [| |content] eqn:Hreply.
  1: { destruct (fallbackMap_strings names) as (fallback & Hfb & Hfbtotal & Hfbid).
       exists fallback. rewrite Hfb. split; [done|]. split; [done|].
       split; [done | by intros ?]. }
  all: exists filled; split;
    [ by destruct (fillPronunciations _ _ _)
    | split; [done|]; split; [done|]; intros _ Hparse;
      apply Hid; by apply parseMap_unparsed ].
Qed.

Lemma normalizeField_string s : normalizeField (Some (JStr s)) = Some (trim s).
Proof.
  unfold normalizeField, or_else. cbn.
  destruct (String.eqb s empty) eqn:Hs; [| done].
  apply String.eqb_eq in Hs. by subst.
Qed.

Lemma normalizeItems_strings items :
  normalizeItems (asItems items) = Some (normalized items).
Proof.
  unfold normalizeItems, normalized, asItems.
  rewrite (mapM_Some_2 _ _ ((fun it => (trim it.1, trim it.2)) <$> items)); [done|].
  induction items as [|it items IH]; constructor; [| done].
  cbn. by rewrite !normalizeField_string.
Qed.

Lemma fillAllergens_strings map items result :
  fillAllergens w map items = Some result → totalOver (assignable items.*1) result.
Proof.
  rewrite fillAllergens_assign. apply filled_keys.
  intros it kv _. unfold allergenEntry.
  destruct (LookupV (methods w) map it.1) as [x|]; [|done]. cbn.
  destruct (ToPropertyKey _) as [s|]; [|done]. intros [= <-]. cbn. eauto.
Qed.

Lemma allergenEntry_unparsed it :
  allergenEntry w (JObj ∅) it
  = Some (it.1, JStr (if String.eqb it.1 "__proto__" then "[object Object]"
                      else unparsedAllergens it.1)).
Proof.
  unfold allergenEntry, LookupV, unparsedAllergens.
  cbn [mbind option_bind]. rewrite Lookup_empty.
  destruct (String.eqb it.1 "__proto__"); [done|].
  destruct (objectMethod it.1) as [f|] eqn:Hf; [| done].
  cbn. by destruct (objectMethod_text _ _ Hf) as [-> _].
Qed.

Lemma fillAllergens_unparsed items :
  ∃ result, fillAllergens w (JObj ∅) items = Some result
            ∧ ∀ k, k ∈ assignable items.*1 →
                   result !! k = Some (JStr (unparsedAllergens k)).
Proof.
  rewrite fillAllergens_assign.
  destruct (uniform_fill (allergenEntry w (JObj ∅)) fst
              (fun k => if String.eqb k "__proto__" then "[object Object]"
                        else unparsedAllergens k) items)
    as (m & Hm & _ & Hid).
  { intros it _. apply allergenEntry_unparsed. }
  exists m. split; [done|]. intros k Hk. rewrite (Hid k Hk).
  apply list_elem_of_filter in Hk as [Hk%String.eqb_neq _]. by rewrite Hk.
Qed.

Lemma allergens_keys items log :
  let reply := complete w (length log) (Allergens (normalized items)) in
  let result := (getAllergensForItems w (asItems items) log).1 in
  (result = ∅ ∨ totalOver (assignable (normalized items).*1) result)
  ∧ (reply = Rejected → result = ∅)
  ∧ (reply ≠ Rejected → JSON_parse w (mapText reply) = None →
     totalOver (assignable (normalized items).*1) result
     ∧ ∀ k, k ∈ assignable (normalized items).*1 →
            result !! k = Some (JStr (unparsedAllergens k))).
Proof.
  intros reply result. subst result. unfold getAllergensForItems.
  rewrite normalizeItems_strings.
  destruct (normalized items) as [|it items'] eqn:Hn.
  { cbn. split; [by left|]. split; [done|]. intros _ _. split.
    - split; [| by intros k v; rewrite lookup_empty].
      intros k. rewrite lookup_empty. split; [by intros [? ?] | by intros ?%elem_of_nil].
    - by intros k ?%elem_of_nil. }
  unfold mbind, M_bind, create. fold reply.
  assert (reply ≠ Rejected →
          let result :=
            default ∅ (fillAllergens w (parseMap w (mapText reply)) (it :: items')) in
          (result = ∅ ∨ totalOver (assignable (it :: items').*1) result)
          ∧ (JSON_parse w (mapText reply) = None →
             totalOver (assignable (it :: items').*1) result
             ∧ ∀ k, k ∈ assignable (it :: items').*1 →
                    result !! k = Some (JStr (unparsedAllergens k))))
    as Hanswered.
  { intros _ result. subst result. split.
    - destruct (fillAllergens _ _ _) as [result|] eqn:Hfill; [| by left].
      right. by eapply fillAllergens_strings.
    - intros Hparse. rewrite (parseMap_unparsed _ Hparse).
      destruct (fillAllergens_unparsed (it :: items')) as (result & Hfill & Hempty).
      rewrite Hfill. split; [by eapply fillAllergens_strings | done]. }
  destruct reply as [| |content] eqn:Hreply.
  - cbn. split; [by left|]. split; done.
  - destruct (Hanswered ltac:(done)) as [H1 H2]. cbn. split; [done|]. split; [done|].
    intros _. apply H2.
  - destruct (Hanswered ltac:(done)) as [H1 H2]. cbn. split; [done|]. split; [done|].
    intros _. apply H2.
Qed.

End Helpers.




(** ** The requests of the enrichment stage *)

Lemma elem_of_firstOccurrences n l : n ∈ firstOccurrences l ↔ n ∈ l.
Proof.
  induction l as [|x l IH]; [done|]. cbn [firstOccurrences].
  rewrite !elem_of_cons, list_elem_of_filter, IH.
  destruct (decide (n = x)) as [-> | Hne]; [by split; left|].
  split; [intros [? | [_ ?]]; [done | by right] | intros [? | ?]; [done | by right]].
Qed.

Lemma NoDup_firstOccurrences l : NoDup (firstOccurrences l).
Proof.
  induction l as [|x l IH]; [constructor|]. cbn [firstOccurrences].
  constructor; [| by apply NoDup_filter].
  by intros [? _]%list_elem_of_filter.
Qed.

Lemma sublist_firstOccurrences l : sublist (firstOccurrences l) l.
Proof.
  induction l as [|x l IH]; [constructor|]. cbn [firstOccurrences].
  apply sublist_skip. etrans; [apply sublist_filter | done].
Qed.

(** Leaving names out before or after the deduplication comes to the
    same. *)
Lemma firstOccurrences_filter (P : string → Prop) `{!∀ n, Decision (P n)} l :
  firstOccurrences (filter P l) = filter P (firstOccurrences l).
Proof.
  induction l as [|x l IH]; [done|]. cbn [firstOccurrences].
  rewrite !filter_cons. destruct (decide (P x)) as [Hx | Hx].
  - cbn [firstOccurrences]. f_equal. rewrite IH, !list_filter_filter.
    apply list_filter_iff. intros n. tauto.
  - rewrite IH. symmetry. apply list_filter_filter_l. by intros n Hn ->.
Qed.

Lemma seen_string x seen :
  existsb (sameValueZero (JStr x)) (JStr <$> seen) = bool_decide (x ∈ seen).
Proof.
  induction seen as [|y seen IH]; [done|]. cbn. rewrite IH.
  destruct (String.eqb x y) eqn:Hxy.
  - apply String.eqb_eq in Hxy as ->. cbn. symmetry. apply bool_decide_eq_true. by left.
  - apply String.eqb_neq in Hxy. cbn.
    apply bool_decide_ext. rewrite elem_of_cons. split; [by right | by intros [-> | ?]].
Qed.

(** On strings, [Array.from(new Set(l))] keeps each name where it first
    occurs. *)
Lemma uniqFrom_strings seen l :
  uniqFrom (JStr <$> seen) (JStr <$> l)
  = JStr <$> firstOccurrences (filter (fun n => n ∉ seen) l).
Proof.
  revert seen. induction l as [|x l IH]; intros seen; [done|].
  cbn [fmap list_fmap uniqFrom]. rewrite seen_string, filter_cons.
  case_bool_decide as Hx.
  - rewrite decide_False by (by intros ?). apply IH.
  - rewrite decide_True by done. cbn [firstOccurrences fmap list_fmap]. f_equal.
    change (JStr x :: (JStr <$> seen)) with (JStr <$> x :: seen). rewrite IH.
    f_equal. rewrite <- firstOccurrences_filter. f_equal.
    rewrite list_filter_filter. apply list_filter_iff.
    intros n. rewrite not_elem_of_cons. tauto.
Qed.

Lemma uniq_strings l : uniq (JStr <$> l) = JStr <$> firstOccurrences l.
Proof.
  unfold uniq. change [] with (JStr <$> []). rewrite uniqFrom_strings.
  do 2 f_equal. induction l as [|x l IH]; [done|].
  rewrite filter_cons, decide_True by (by intros ?%elem_of_nil). by rewrite IH.
Qed.

Lemma truthy_names allDishes :
  Forall validRecord allDishes →
  filter ToBoolean (omap (fun d : obj => d !! "original_name") allDishes)
  = JStr <$> filter (fun n => n ≠ empty)
               ((fun d : obj => textOf (d !! "original_name")) <$> allDishes).
Proof.
  induction 1 as [|d rest [[n Hn] _] _ IH]; [done|].
  cbn [omap list_omap fmap list_fmap]. rewrite Hn. cbn [textOf].
  rewrite !filter_cons, IH. cbn [ToBoolean].
  destruct (String.eqb n empty) eqn:Hne.
  - apply String.eqb_eq in Hne as ->.
    rewrite decide_False by (by intros ?). by rewrite decide_False by (by intros ?).
  - apply String.eqb_neq in Hne.
    rewrite decide_True by done. by rewrite decide_True by done.
Qed.

Lemma itemsOf_strings allDishes :
  Forall validRecord allDishes →
  itemsOf allDishes
  = asItems ((fun d : obj => (textOf (d !! "original_name"),
                               textOf (d !! "simple_description"))) <$> allDishes).
Proof.
  unfold itemsOf, asItems.
  induction 1 as [|d rest [[n Hn] [[s Hs] _]] _ IH]; [done|].
  cbn. by rewrite IH, Hn, Hs.
Qed.

(** The names that the enrichment stage asks the pronunciation of. *)
Lemma uniqueNames_valid allDishes :
  Forall validRecord allDishes →
  uniqueNames allDishes
  = JStr <$> firstOccurrences
               (filter (fun n => n ≠ empty)
                  ((fun d : obj => textOf (d !! "original_name")) <$> allDishes)).
Proof.
  intros Hvalid. unfold uniqueNames. by rewrite (truthy_names _ Hvalid), uniq_strings.
Qed.

(** C4 (as amended): on records that passed the filter, the pronunciation
    request lists the non-empty names in the order of the records, each
    name where it first occurs and not again: they are distinct, they are
    the non-empty names of the records, and they come in the order of the
    records.  The allergen request lists one item for every record,
    repeated names included: the trimmed name and description, the items
    whose trimmed name is empty being left out.  No request is issued when
    no record has a non-empty name, and no allergen request when no item is
    left. *)
Theorem enrichment_requests_issued
    (w : World) (allDishes : list obj) (log : list Request) :
  Forall validRecord allDishes →
  let name (d : obj) := textOf (d !! "original_name") in
  let names := firstOccurrences (filter (fun n => n ≠ empty) (name <$> allDishes)) in
  let items :=
    normalized ((fun d : obj => (name d, textOf (d !! "simple_description"))) <$> allDishes) in
  NoDup names
  ∧ (∀ n, n ∈ names ↔ n ≠ empty ∧ n ∈ name <$> allDishes)
  ∧ sublist names (name <$> allDishes)
  ∧ (enrich w allDishes log).2
    = log ++ match names with
             | [] => []
             | _ => Pronunciations names
                      :: match items with
                         | [] => []
                         | _ => [Allergens items]
                         end
             end.
Proof.
  intros Hvalid name names items.
  split; [apply NoDup_firstOccurrences|]. split; [| split].
  - intros n. subst names. by rewrite elem_of_firstOccurrences, list_elem_of_filter.
  - etrans; [apply sublist_firstOccurrences | apply sublist_filter].
  - rewrite enrich_log. f_equal. unfold enrichmentRequests.
    rewrite (uniqueNames_valid _ Hvalid). fold name. fold names.
    destruct names as [|n names']; [done|].
    pose proof (mapM_ToString_strings (n :: names')) as Hlisted.
    cbn [fmap list_fmap] in Hlisted |- *.
    unfold pronunciationRequests. rewrite Hlisted.
    unfold allergenRequests. rewrite (itemsOf_strings _ Hvalid), normalizeItems_strings.
    subst items name. cbn [app]. by destruct (normalized _).
Qed.

(** The records gathered from the two pages of [Sample.twoPages]:
    Tonkotsu Ramen, Gyoza, and Tonkotsu Ramen again. *)
Lemma twoPages_valid :
  Forall validRecord
    [withPage 1 (Sample.dish "Tonkotsu Ramen" "This is a soup." "High" "Low" "High");
     Sample.gyoza;
     withPage 2 (Sample.dish "Tonkotsu Ramen" "This is a noodle soup." "High" "Low" "High")].
Proof.
  repeat constructor; try (eexists; reflexivity); left; eexists; reflexivity.
Qed.

Lemma enrichment_requests_witness :
  let allDishes :=
    [withPage 1 (Sample.dish "Tonkotsu Ramen" "This is a soup." "High" "Low" "High");
     Sample.gyoza;
     withPage 2 (Sample.dish "Tonkotsu Ramen" "This is a noodle soup." "High" "Low" "High")] in
  let name (d : obj) := textOf (d !! "original_name") in
  name <$> allDishes = ["Tonkotsu Ramen"; "Gyoza"; "Tonkotsu Ramen"]
  ∧ firstOccurrences (filter (fun n => n ≠ empty) (name <$> allDishes))
    = ["Tonkotsu Ramen"; "Gyoza"]
  ∧ (enrich Sample.twoPages allDishes []).2
    = [Pronunciations ["Tonkotsu Ramen"; "Gyoza"];
       Allergens [("Tonkotsu Ramen", "This is a soup.");
                  ("Gyoza", "This is a dumpling.");
                  ("Tonkotsu Ramen", "This is a noodle soup.")]].
Proof.
  intros allDishes name.
  assert (name <$> allDishes = ["Tonkotsu Ramen"; "Gyoza"; "Tonkotsu Ramen"]) as Hnames
    by (vm_compute; reflexivity).
  split; [exact Hnames|]. rewrite Hnames. split; [vm_compute; reflexivity|].
  destruct (enrichment_requests_issued Sample.twoPages allDishes [] twoPages_valid)
    as (_ & _ & _ & Hlog).
  rewrite Hlog. fold name. rewrite Hnames. vm_compute. reflexivity.
Defined.

(** C4 as stated fails: with Tonkotsu Ramen on two pages, the pronunciation
    request names it once and the allergen request lists it twice. *)
Lemma allergen_request_keeps_duplicates :
  (analyzeMenu Sample.twoPages (Sample.request Sample.twoImages) []).2
  = [ClassifyImage (Sample.image "p1");
     ExtractDishes (Sample.image "p1"); ExtractDishes (Sample.image "p2");
     Pronunciations ["Tonkotsu Ramen"; "Gyoza"];
     Allergens [("Tonkotsu Ramen", "This is a soup.");
                ("Gyoza", "This is a dumpling.");
                ("Tonkotsu Ramen", "This is a noodle soup.")]]
  ∧ ¬ NoDup [("Tonkotsu Ramen", "This is a soup.");
             ("Gyoza", "This is a dumpling.");
             ("Tonkotsu Ramen", "This is a noodle soup.")].*1.
Proof.
  split; [vm_compute; reflexivity|].
  intros Hnd. apply NoDup_cons in Hnd as [Hnotin _]. apply Hnotin.
  cbn. right. left.
Qed.

(** * Further properties *)

(** ** Texts *)

Lemma trimEnd_idem s : trimEnd (trimEnd s) = trimEnd s.
Proof.
  induction s as [|c r IH]; [done|]. cbn.
  destruct (trimEnd r) as [|c' r'] eqn:Hr.
  - destruct (isSpace c) eqn:Hc; [done|]. cbn. by rewrite Hc.
  - cbn [trimEnd] in IH |- *. fold trimEnd in *. rewrite IH. done.
Qed.

Lemma trimStart_cleanStart s : cleanStart (trimStart s).
Proof.
  induction s as [|c r IH]; [done|]. cbn [trimStart].
  by destruct (isSpace c) eqn:Hc.
Qed.

Lemma trimStart_clean s : cleanStart s → trimStart s = s.
Proof. destruct s as [|c r]; [done|]. cbn [cleanStart trimStart]. by intros ->. Qed.

Lemma cleanStart_fixed s : trimStart s = s → cleanStart s.
Proof. intros <-. apply trimStart_cleanStart. Qed.

Lemma trimEnd_cleanStart s : cleanStart s → cleanStart (trimEnd s).
Proof.
  destruct s as [|c r]; [done|]. cbn [cleanStart trimEnd]. intros Hc.
  destruct (trimEnd r); [by rewrite Hc | done].
Qed.

Lemma trim_idem s : trim (trim s) = trim s.
Proof.
  unfold trim.
  rewrite (trimStart_clean (trimEnd (trimStart s)))
    by apply trimEnd_cleanStart, trimStart_cleanStart.
  apply trimEnd_idem.
Qed.

Lemma append_empty (s : string) : EmptyString +:+ s = s.
Proof. reflexivity. Qed.

Lemma append_unit c (r s : string) : String c r +:+ s = String c (r +:+ s).
Proof. reflexivity. Qed.

Lemma trimStart_blank_app ws s :
  isBlank ws = true → trimStart (ws +:+ s) = trimStart s.
Proof.
  induction ws as [|c r IH]; [done|]. rewrite append_unit. cbn [isBlank trimStart].
  intros [-> Hr]%andb_prop. by apply IH.
Qed.

Lemma trimEnd_blank ws : isBlank ws = true → trimEnd ws = EmptyString.
Proof.
  induction ws as [|c r IH]; [done|]. cbn [isBlank trimEnd].
  intros [-> Hr]%andb_prop. by rewrite IH.
Qed.

Lemma trimEnd_app_blank s ws :
  isBlank ws = true → trimEnd (s +:+ ws) = trimEnd s.
Proof.
  intros Hws. induction s as [|c r IH].
  - rewrite append_empty. by apply trimEnd_blank.
  - rewrite append_unit. cbn [trimEnd]. by rewrite IH.
Qed.

Lemma substring_whole s : String.substring 0 (String.length s) s = s.
Proof. induction s as [|c r IH]; [done|]. cbn [String.length String.substring]. by rewrite IH. Qed.

Lemma substring_front t u :
  String.substring 0 (String.length t) (t +:+ u) = t.
Proof.
  induction t as [|c r IH].
  - by destruct u.
  - rewrite append_unit. cbn [String.length String.substring]. by rewrite IH.
Qed.

Lemma substring_back t u :
  String.substring (String.length t) (String.length u) (t +:+ u) = u.
Proof.
  induction t as [|c r IH]; [apply substring_whole|].
  rewrite append_unit. cbn [String.length String.substring]. done.
Qed.

Lemma length_append t u :
  String.length (t +:+ u) = String.length t + String.length u.
Proof.
  induction t as [|c r IH]; [done|].
  rewrite append_unit. cbn [String.length]. by rewrite IH.
Qed.

Lemma endsWith_append t u : endsWith u (t +:+ u) = true.
Proof.
  unfold endsWith. rewrite length_append.
  apply andb_true_intro. split.
  - apply Nat.leb_le. lia.
  - replace (String.length t + String.length u - String.length u)
      with (String.length t) by lia.
    rewrite substring_back. apply String.eqb_refl.
Qed.

Lemma dropClosingFence_append t :
  dropClosingFence (t +:+ "```") = trimEnd t.
Proof.
  unfold dropClosingFence. rewrite endsWith_append, length_append. simpl String.length.
  replace (String.length t + 3 - 3) with (String.length t) by lia.
  by rewrite substring_front.
Qed.

Lemma append_assoc (a b c : string) : (a +:+ b) +:+ c = a +:+ (b +:+ c).
Proof.
  induction a as [|x a IH]; [done|].
  by rewrite !append_unit, IH.
Qed.

(** The inside of a fence, once the opening marker is gone. *)
Lemma fence_inside ws1 payload ws2 :
  isBlank ws1 = true → isBlank ws2 = true →
  trimStart payload = payload → trimEnd payload = payload →
  dropClosingFence (trimStart (ws1 +:+ payload +:+ ws2 +:+ "```")) = payload.
Proof.
  intros Hws1 Hws2 Hstart Hend.
  rewrite (trimStart_blank_app _ _ Hws1).
  destruct payload as [|c r].
  - rewrite append_empty. rewrite (trimStart_blank_app _ _ Hws2).
    by vm_compute.
  - rewrite trimStart_clean.
    + rewrite <- append_assoc, dropClosingFence_append, trimEnd_app_blank; done.
    + apply cleanStart_fixed in Hstart. done.
Qed.

Lemma append_empty_inv (t u : string) : t +:+ u = EmptyString → u = EmptyString.
Proof. destruct t; [done | discriminate]. Qed.

Lemma trimEnd_keeps t u :
  trimEnd u = u → u ≠ EmptyString → trimEnd (t +:+ u) = t +:+ u.
Proof.
  intros Hu Hne. induction t as [|c r IH]; [done|].
  rewrite append_unit. cbn [trimEnd]. rewrite IH.
  destruct (r +:+ u) eqn:Hru; [| done].
  by apply append_empty_inv in Hru.
Qed.

Lemma startsWith_append p s : startsWith p (p +:+ s) = true.
Proof.
  unfold startsWith. induction p as [|c r IH].
  - by destruct s.
  - rewrite append_unit. cbn [String.prefix].
    by destruct (ascii_dec c c).
Qed.

Lemma dropUnits_append p s : dropUnits (String.length p) (p +:+ s) = s.
Proof.
  unfold dropUnits. rewrite length_append.
  replace (String.length p + String.length s - String.length p)
    with (String.length s) by lia.
  induction p as [|c r IH]; [apply substring_whole|].
  by rewrite append_unit.
Qed.

Lemma stripFences_json rest :
  stripFences ("```json" +:+ rest) = dropClosingFence (trimStart rest).
Proof.
  unfold stripFences. rewrite startsWith_append.
  pose proof (dropUnits_append "```json" rest) as Hdrop.
  cbn [String.length] in Hdrop. by rewrite Hdrop.
Qed.

Lemma stripFences_plain rest :
  startsWith "```json" ("```" +:+ rest) = false →
  stripFences ("```" +:+ rest) = dropClosingFence (trimStart rest).
Proof.
  intros Hjson. unfold stripFences. rewrite Hjson, startsWith_append.
  pose proof (dropUnits_append "```" rest) as Hdrop.
  cbn [String.length] in Hdrop. by rewrite Hdrop.
Qed.

(** A text between white space, when it begins and ends with a fence. *)
Lemma trim_fenced lead inner trail :
  isBlank lead = true → isBlank trail = true →
  trim (lead +:+ ("```" +:+ inner +:+ "```") +:+ trail) = "```" +:+ inner +:+ "```".
Proof.
  intros Hlead Htrail. unfold trim.
  rewrite (trimStart_blank_app _ _ Hlead).
  rewrite trimStart_clean by done.
  rewrite (trimEnd_app_blank _ _ Htrail).
  rewrite <- append_assoc. by apply trimEnd_keeps.
Qed.

(** ** Extraction *)

Lemma extract_result w imageData log :
  (extractDishesFromImage w imageData log).1
  = extracted w (complete w (length log) (ExtractDishes imageData)).
Proof. by rewrite extract_run. Qed.

(** X1: a reply whose list sits in a [```json] fence, with white space
    around the fence and around the list, is read as the list alone. *)
Theorem fenced_json_reply_is_unwrapped
    (w : World) (imageData : value) (log : list Request)
    (lead ws1 payload ws2 trail : string) :
  isBlank lead = true → isBlank ws1 = true →
  isBlank ws2 = true → isBlank trail = true →
  trimStart payload = payload → trimEnd payload = payload →
  complete w (length log) (ExtractDishes imageData)
  = Completion (Some (lead +:+ ("```json" +:+ ws1 +:+ payload +:+ ws2 +:+ "```") +:+ trail)) →
  (extractDishesFromImage w imageData log).1 = Some (dishesOfContent w payload).
Proof.
  intros Hlead Hws1 Hws2 Htrail Hstart Hend Hreply.
  rewrite extract_result, Hreply. unfold extracted. do 2 f_equal.
  replace ("```json" +:+ ws1 +:+ payload +:+ ws2 +:+ "```")
    with ("```" +:+ ("json" +:+ ws1 +:+ payload +:+ ws2) +:+ "```")
    by (by rewrite !append_assoc).
  rewrite (trim_fenced _ _ _ Hlead Htrail).
  replace ("```" +:+ ("json" +:+ ws1 +:+ payload +:+ ws2) +:+ "```")
    with ("```json" +:+ (ws1 +:+ payload +:+ ws2 +:+ "```"))
    by (by rewrite !append_assoc).
  rewrite stripFences_json. by apply fence_inside.
Qed.

Lemma fenced_json_witness :
  (extractDishesFromImage Cases.fencedJson (Sample.image "p1") []).1 = Some [].
Proof.
  apply (fenced_json_reply_is_unwrapped Cases.fencedJson (Sample.image "p1") []
           Cases.newline Cases.newline "[]" Cases.newline Cases.newline);
    reflexivity.
Defined.

(** X2: the same holds for a plain fence, when white space follows the
    opening marker. *)
Theorem fenced_plain_reply_is_unwrapped
    (w : World) (imageData : value) (log : list Request)
    (lead ws1 payload ws2 trail : string) :
  isBlank lead = true → isBlank ws1 = true → ws1 ≠ EmptyString →
  isBlank ws2 = true → isBlank trail = true →
  trimStart payload = payload → trimEnd payload = payload →
  complete w (length log) (ExtractDishes imageData)
  = Completion (Some (lead +:+ ("```" +:+ ws1 +:+ payload +:+ ws2 +:+ "```") +:+ trail)) →
  (extractDishesFromImage w imageData log).1 = Some (dishesOfContent w payload).
Proof.
  intros Hlead Hws1 Hne Hws2 Htrail Hstart Hend Hreply.
  rewrite extract_result, Hreply. unfold extracted. do 2 f_equal.
  replace ("```" +:+ ws1 +:+ payload +:+ ws2 +:+ "```")
    with ("```" +:+ (ws1 +:+ payload +:+ ws2) +:+ "```")
    by (by rewrite !append_assoc).
  rewrite (trim_fenced _ _ _ Hlead Htrail).
  rewrite !append_assoc, stripFences_plain.
  - by apply fence_inside.
  - destruct ws1 as [|c r]; [done|].
    apply andb_prop in Hws1 as [Hc _].
    rewrite !append_unit. unfold startsWith. cbn [String.prefix String.append].
    destruct (ascii_dec "`" "`") as [_ | Hdiff]; [| done].
    rewrite append_empty. cbn [String.prefix].
    destruct (ascii_dec "j" c) as [<- | _]; [discriminate Hc | done].
Qed.

Lemma fenced_plain_witness :
  (extractDishesFromImage Cases.fencedPlain (Sample.image "p1") []).1 = Some [].
Proof.
  apply (fenced_plain_reply_is_unwrapped Cases.fencedPlain (Sample.image "p1") []
           EmptyString Cases.newline "[]" EmptyString Cases.newline);
    try reflexivity.
  discriminate.
Defined.

(** X3: the filter keeps an element exactly when it is an object whose
    name and description are strings and whose nutrition is an object or an
    array; [null], numbers, texts and arrays are dropped whatever they
    hold. *)
Theorem filter_keeps_exactly_the_valid_objects (v : value) :
  validDish v = true ↔ ∃ o, v = JObj o ∧ validRecord o.
Proof.
  split; [apply validDish_inv|].
  intros (o & -> & (n & Hn) & (s & Hs) & Hnutrition).
  unfold validDish. cbn [ToBoolean Get]. rewrite Hn, Hs.
  by destruct Hnutrition as [[o' ->] | [l ->]].
Qed.

(** ** The handler, stage by stage *)

Lemma analyzeMenu_batch w reqBody images log :
  reqBody !! "images" = Some (JArr images) →
  1 ≤ length images ≤ 5 →
  analyzeMenu w reqBody log = analyzeImages w reqBody images log.
Proof.
  intros Himages [Hlo Hhi]. unfold analyzeMenu. rewrite Himages.
  destruct images as [|imageData rest]; [cbn in Hlo; lia|].
  by assert ((5 <? length (imageData :: rest)) = false) as -> by (apply Nat.ltb_ge; lia).
Qed.

(** X4: when no image of the batch is recognised as a menu, the answer is
    the NOT_MENU_IMAGES response with status 400, every image has been
    asked about once, and no extraction request is issued. *)
Theorem no_menu_stops_before_extraction
    (w : World) (reqBody : obj) (images : list value) (log : list Request) :
  reqBody !! "images" = Some (JArr images) →
  1 ≤ length images ≤ 5 →
  (∀ j img, images !! j = Some img →
     negative (complete w (length log + j) (ClassifyImage img))) →
  analyzeMenu w reqBody log = (notMenuImages, log ++ (ClassifyImage <$> images))
  ∧ status notMenuImages = 400.
Proof.
  intros Himages Hsize Hnegative. split; [| done].
  rewrite (analyzeMenu_batch _ _ _ _ Himages Hsize), analyzeImages_unfold.
  by rewrite (validate_exhausts _ _ _ Hnegative).
Qed.

Lemma no_menu_witness :
  analyzeMenu Sample.noneIsMenu (Sample.request Sample.threeImages) []
  = (notMenuImages, ClassifyImage <$> Sample.threeImages).
Proof.
  apply (no_menu_stops_before_extraction Sample.noneIsMenu
           (Sample.request Sample.threeImages) Sample.threeImages []
           ltac:(reflexivity) ltac:(cbn; lia)).
  intros [|[|[|j]]] img Hl; try discriminate Hl; injection Hl as <-.
  - apply negative_says. discriminate.
  - apply negative_says. discriminate.
  - apply negative_no_content.
Defined.

(** X5: when the classification of an image errors before any image was
    recognised, the batch goes on as a menu: every image gets its
    extraction request, and the answer is the 422 response or a 200
    response, not NOT_MENU_IMAGES. *)
Theorem failed_validation_lets_the_batch_through
    (w : World) (reqBody : obj) (images : list value) (log : list Request)
    (k : nat) (imageData : value) :
  reqBody !! "images" = Some (JArr images) →
  1 ≤ length images ≤ 5 →
  images !! k = Some imageData →
  (∀ j img, j < k → images !! j = Some img →
     negative (complete w (length log + j) (ClassifyImage img))) →
  errored (complete w (length log + k) (ClassifyImage imageData)) →
  ∃ response more,
    analyzeMenu w reqBody log
    = (response,
       log ++ (ClassifyImage <$> take (S k) images)
           ++ (ExtractDishes <$> images) ++ more)
    ∧ (response = noDishes ∨ ∃ dishes, response = ok dishes).
Proof.
  intros Himages Hsize Hk Hbefore Herr.
  rewrite (analyzeMenu_batch _ _ _ _ Himages Hsize), analyzeImages_unfold.
  rewrite (validate_stops w images k imageData log Hk Hbefore (or_intror Herr)).
  cbn [negb]. rewrite extractAll_images.
  destruct (concat _) as [|d allDishes].
  { exists noDishes, []. rewrite app_nil_r, <- app_assoc. split; [done | by left]. }
  destruct (skipRequested reqBody).
  { eexists _, []. rewrite app_nil_r, <- app_assoc. split; [done | right; by eexists]. }
  pose proof (enrich_log w (d :: allDishes)
                ((log ++ (ClassifyImage <$> take (S k) images)) ++ (ExtractDishes <$> images)))
    as Hlog.
  destruct (enrich w (d :: allDishes) _) as [enriched log3]. cbn [snd] in Hlog. subst log3.
  eexists _, _. rewrite <- !app_assoc. split; [done | right; by eexists].
Qed.

Lemma failed_validation_witness :
  ∃ response more,
    analyzeMenu Sample.secondFails (Sample.request Sample.threeImages) []
    = (response,
       [ClassifyImage (Sample.image "p1"); ClassifyImage (Sample.image "p2")]
         ++ (ExtractDishes <$> Sample.threeImages) ++ more)
    ∧ (response = noDishes ∨ ∃ dishes, response = ok dishes).
Proof.
  apply (failed_validation_lets_the_batch_through Sample.secondFails
           (Sample.request Sample.threeImages) Sample.threeImages [] 1 (Sample.image "p2")
           ltac:(reflexivity) ltac:(cbn; lia) ltac:(reflexivity)).
  - intros [|j] img Hj Hl; [| lia]. injection Hl as <-.
    apply negative_says. discriminate.
  - left. reflexivity.
Defined.

Lemma enrichmentRequests_length allDishes :
  length (enrichmentRequests allDishes) ≤ 2.
Proof.
  unfold enrichmentRequests, pronunciationRequests, allergenRequests.
  destruct (uniqueNames allDishes) as [|n names]; [cbn; lia|].
  rewrite length_app.
  destruct (mapM ToString (n :: names));
    destruct (normalizeItems (itemsOf allDishes)) as [[|it items]|]; cbn; lia.
Qed.

Lemma analyzeImages_requests w reqBody images log :
  ∃ issued,
    (analyzeImages w reqBody images log).2 = log ++ issued
    ∧ length issued ≤ 2 * length images + 2.
Proof.
  rewrite analyzeImages_unfold.
  destruct (validate_log w images log) as [n Hn].
  destruct (validateMenuImages w images log) as [[|] log1]; cbn [negb snd] in *; subst log1.
  - rewrite extractAll_images.
    assert (length (ClassifyImage <$> take n images) ≤ length images) as Hclassify.
    { rewrite length_fmap, length_take. lia. }
    assert (length (ExtractDishes <$> images) = length images) as Hextract
      by apply length_fmap.
    destruct (concat _) as [|d allDishes].
    { eexists. rewrite <- app_assoc. split; [done|]. rewrite length_app. lia. }
    destruct (skipRequested reqBody).
    { eexists. rewrite <- app_assoc. split; [done|]. rewrite length_app. lia. }
    pose proof (enrich_log w (d :: allDishes)
                  ((log ++ (ClassifyImage <$> take n images)) ++ (ExtractDishes <$> images)))
      as Hlog.
    pose proof (enrichmentRequests_length (d :: allDishes)) as Henrich.
    destruct (enrich w (d :: allDishes) _) as [enriched log3]. cbn [snd] in *. subst log3.
    eexists. rewrite <- !app_assoc. split; [done|]. rewrite !length_app. lia.
  - eexists. split; [done|]. rewrite length_fmap, length_take. lia.
Qed.

(** X6: one call of the handler issues at most twelve requests: at most
    one classification and one extraction for each image, and at most two
    for the enrichment.  The log it was given is only extended. *)
Theorem handler_issues_at_most_twelve_requests
    (w : World) (reqBody : obj) (log : list Request) :
  ∃ issued,
    (analyzeMenu w reqBody log).2 = log ++ issued
    ∧ length issued ≤ 12
    ∧ ∀ images, reqBody !! "images" = Some (JArr images) →
                length issued ≤ 2 * length images + 2.
Proof.
  unfold analyzeMenu.
  destruct (reqBody !! "images") as [[| | | |images| |]|];
    try (exists []; rewrite app_nil_r; split; [done|]; split; [cbn; lia | done]).
  destruct images as [|imageData rest].
  { exists []. rewrite app_nil_r. split; [done|]. split; [cbn; lia|].
    intros images' [= <-]. cbn. lia. }
  destruct (5 <? length (imageData :: rest)) eqn:Hlen.
  { exists []. rewrite app_nil_r. split; [done|]. split; [cbn; lia|].
    intros images' [= <-]. cbn. lia. }
  apply Nat.ltb_ge in Hlen.
  destruct (analyzeImages_requests w reqBody (imageData :: rest) log)
    as (issued & Hissued & Hbound).
  exists issued. split; [done|]. split; [lia|]. by intros images' [= <-].
Qed.

(** ** The enrichment stage on records that passed the filter *)

Section Enriched.

Context (w : World).

Lemma enrich_result_maps allDishes log :
  (enrich w allDishes log).1
  = enrichAll w (enrichmentMaps w allDishes log).1 (enrichmentMaps w allDishes log).2
      allDishes.
Proof.
  unfold enrich, enrichmentMaps.
  destruct (uniqueNames allDishes) as [|n names]; [done|].
  unfold mbind, M_bind.
  destruct (getPronunciationsForNames w (n :: names) log) as [p log1].
  by destruct (getAllergensForItems w (itemsOf allDishes) log1) as [a log2].
Qed.

Lemma normalized_keys items k :
  k ∈ (normalized items).*1 ↔ k ≠ empty ∧ ∃ it, it ∈ items ∧ trim it.1 = k.
Proof.
  unfold normalized. rewrite list_elem_of_fmap. split.
  - intros (it & -> & [Hne (x & -> & Hx)%list_elem_of_fmap]%list_elem_of_filter).
    split; [done|]. by exists x.
  - intros [Hne (x & Hx & <-)]. exists (trim x.1, trim x.2). split; [done|].
    apply list_elem_of_filter. split; [done|]. apply list_elem_of_fmap. by exists x.
Qed.

Lemma normalized_keys_trimmed items k :
  k ∈ (normalized items).*1 → trim k = k.
Proof. intros [_ (it & _ & <-)]%normalized_keys. apply trim_idem. Qed.

(** The two maps of a run of the stage, from the two replies.  The names
    asked for are strings, so that the pronunciation request is issued,
    and the allergen request comes second. *)
Lemma enrichmentMaps_spec allDishes log names items :
  Forall validRecord allDishes →
  names = firstOccurrences
            (filter (fun n => n ≠ empty)
               ((fun d : obj => textOf (d !! "original_name")) <$> allDishes)) →
  items = (fun d : obj => (textOf (d !! "original_name"),
                           textOf (d !! "simple_description"))) <$> allDishes →
  let maps := enrichmentMaps w allDishes log in
  let r1 := complete w (length log) (Pronunciations names) in
  let r2 := complete w (S (length log)) (Allergens (normalized items)) in
  proto maps.1 = None
  ∧ totalOver (assignable names) (own maps.1)
  ∧ (r1 = Rejected → ∀ n, n ∈ assignable names → own maps.1 !! n = Some (JStr n))
  ∧ (r1 ≠ Rejected → JSON_parse w (mapText r1) = None →
     ∀ n, n ∈ assignable names →
          own maps.1 !! n = Some (JStr (unparsedPronunciation n)))
  ∧ (∀ k v, maps.2 !! k = Some v →
            k ∈ assignable (normalized items).*1 ∧ ∃ s, v = JStr s)
  ∧ (r2 = Rejected → maps.2 = ∅)
  ∧ (r2 ≠ Rejected → JSON_parse w (mapText r2) = None →
     ∀ k, k ∈ assignable (normalized items).*1 →
          maps.2 !! k = Some (JStr (unparsedAllergens k))).
Proof.
  intros Hvalid Hnames Hitems maps r1 r2. subst maps r1 r2.
  unfold enrichmentMaps. rewrite (uniqueNames_valid _ Hvalid), <- Hnames.
  destruct names as [|n0 rest].
  { cbn [fmap list_fmap fst snd emptyDict own proto].
    split; [done|]. split.
    { split; [| by intros k v; rewrite lookup_empty].
      intros k. rewrite lookup_empty. split; [by intros [? ?] | by intros ?%elem_of_nil]. }
    split; [by intros _ n ?%elem_of_nil|]. split; [by intros _ _ n ?%elem_of_nil|].
    split; [by intros k v; rewrite lookup_empty|]. split; [done|].
    intros _ _ k [_ [Hk (it & Hit & Htrim)]%normalized_keys]%list_elem_of_filter.
    exfalso. subst items. apply list_elem_of_fmap in Hit as (d & -> & Hd).
    cbn [fst] in Htrim.
    assert (textOf (d !! "original_name")
            ∈ firstOccurrences
                (filter (fun n => n ≠ empty)
                   ((fun d : obj => textOf (d !! "original_name")) <$> allDishes)))
      as Hin.
    { apply elem_of_firstOccurrences, list_elem_of_filter. split.
      - intros Hempty. rewrite Hempty in Htrim. by subst k.
      - apply list_elem_of_fmap. by exists d. }
    rewrite <- Hnames in Hin. by apply elem_of_nil in Hin. }
  change (JStr <$> n0 :: rest) with (JStr n0 :: (JStr <$> rest)). cbv iota.
  change (JStr n0 :: (JStr <$> rest)) with (JStr <$> n0 :: rest).
  pose proof (pronunciations_log w (JStr <$> n0 :: rest) log) as Hlog.
  unfold pronunciationRequests in Hlog. rewrite mapM_ToString_strings in Hlog.
  destruct (pronunciations_total w (n0 :: rest) log)
    as (filled & Hfilled & Htotal & Hrejected & Hunparsed).
  destruct (getPronunciationsForNames w (JStr <$> n0 :: rest) log) as [p log1].
  cbn [fst snd] in Hfilled, Hlog. subst p.
  assert (length log1 = S (length log)) as Hlen
    by (rewrite Hlog, length_app; cbn; lia).
  rewrite (itemsOf_strings _ Hvalid), <- Hitems.
  pose proof (allergens_keys w items log1) as (Hkeys & Harejected & Haunparsed).
  rewrite Hlen in Harejected, Haunparsed.
  destruct (getAllergensForItems w (asItems items) log1) as [a log2].
  cbn [fst snd default own proto] in *.
  split; [done|]. split; [done|]. split; [done|]. split; [done|].
  split; [| split].
  - intros k v Hv. destruct Hkeys as [-> | [Hdom Hvalues]].
    + by rewrite lookup_empty in Hv.
    + split; [apply Hdom; by eexists | by eapply Hvalues].
  - apply Harejected.
  - intros Hr Hparse. by apply Haunparsed.
Qed.

(** The names under which the pronunciation map has a text: the names of
    the records, but the empty name and [__proto__]. *)
Lemma pronunciation_keys allDishes log k :
  Forall validRecord allDishes →
  let maps := enrichmentMaps w allDishes log in
  proto maps.1 = None
  ∧ (own maps.1 !! k = None
     ∨ ∃ s, own maps.1 !! k = Some (JStr s))
  ∧ (is_Some (own maps.1 !! k) ↔
     k ≠ "__proto__" ∧ k ≠ empty
     ∧ k ∈ (fun d : obj => textOf (d !! "original_name")) <$> allDishes).
Proof.
  intros Hvalid maps.
  destruct (enrichmentMaps_spec allDishes log _ _ Hvalid eq_refl eq_refl)
    as (Hproto & [Hdom Hstrings] & _).
  fold maps in Hproto, Hdom, Hstrings. split; [done|]. split.
  - destruct (own maps.1 !! k) as [v|] eqn:Hv; [| by left].
    right. destruct (Hstrings _ _ Hv) as [s ->]. by exists s.
  - rewrite Hdom. unfold assignable.
    rewrite list_elem_of_filter, elem_of_firstOccurrences, list_elem_of_filter.
    tauto.
Qed.

(** The allergen map has texts under trimmed names, and none under
    [__proto__]. *)
Lemma allergen_keys allDishes log k v :
  Forall validRecord allDishes →
  (enrichmentMaps w allDishes log).2 !! k = Some v →
  trim k = k ∧ k ≠ "__proto__" ∧ ∃ s, v = JStr s.
Proof.
  intros Hvalid Hv.
  destruct (enrichmentMaps_spec allDishes log _ _ Hvalid eq_refl eq_refl)
    as (_ & _ & _ & _ & Hkeys & _).
  destruct (Hkeys _ _ Hv) as [[Hne Hk]%list_elem_of_filter Hs].
  split; [by eapply normalized_keys_trimmed | done].
Qed.

End Enriched.

Lemma analyzeMenu_ok_enriched w reqBody log dishes :
  (analyzeMenu w reqBody log).1 = ok dishes →
  skipRequested reqBody = false →
  ∃ allDishes log2,
    Forall validRecord allDishes ∧ allDishes ≠ []
    ∧ dishes = (enrich w allDishes log2).1.
Proof.
  unfold analyzeMenu.
  destruct (reqBody !! "images") as [[| | | |images| |]|]; try done.
  destruct images as [|imageData rest]; [done|].
  destruct (5 <? length (imageData :: rest)); [done|].
  rewrite analyzeImages_unfold. intros Hrun Hskip. rewrite Hskip in Hrun.
  destruct (validateMenuImages w (imageData :: rest) log) as [[|] log1];
    cbn [negb] in Hrun; [| done].
  pose proof (extractAll_valid w (imageData :: rest) log1) as Hvalid.
  destruct (extractAll w (imageData :: rest) 0 [] log1) as [[|d allDishes] log2];
    [done|].
  exists (d :: allDishes), log2. split; [done|]. split; [done|].
  destruct (enrich w (d :: allDishes) log2) as [enriched log3].
  cbn [fst] in *. by injection Hrun as <-.
Qed.

(** What the merge puts on a record of a 200 response, from the maps of
    the run. *)
Lemma enriched_record w reqBody log dishes d :
  (analyzeMenu w reqBody log).1 = ok dishes →
  skipRequested reqBody = false →
  d ∈ dishes →
  ∃ allDishes log2 n,
    Forall validRecord allDishes
    ∧ n ∈ (fun d : obj => textOf (d !! "original_name")) <$> allDishes
    ∧ (∃ s, (n, s) ∈ (fun d : obj => (textOf (d !! "original_name"),
                                       textOf (d !! "simple_description"))) <$> allDishes)
    ∧ d !! "original_name" = Some (JStr n)
    ∧ d !! "pronunciation"
      = or_else (read (methods w) (enrichmentMaps w allDishes log2).1 n) (Some (JStr n))
    ∧ d !! "allergens"
      = Some (JStr (allergenText ((enrichmentMaps w allDishes log2).2 !! n))).
Proof.
  intros Hrun Hskip Hd.
  destruct (analyzeMenu_ok_enriched _ _ _ _ Hrun Hskip)
    as (allDishes & log2 & Hvalid & _ & ->).
  rewrite enrich_result_maps in Hd.
  apply (enrichAll_elem _ _ _ _ _ Hvalid) in Hd as (d0 & n & Hd0 & Hn0 & Hn & Hp & Ha).
  exists allDishes, log2, n. split; [done|].
  split; [apply list_elem_of_fmap; exists d0; by rewrite Hn0|].
  split.
  { exists (textOf (d0 !! "simple_description")). apply list_elem_of_fmap.
    exists d0. by rewrite Hn0. }
  split; [done|]. split; [done|]. by rewrite Ha, allergenText_Lookup.
Qed.

Lemma read_proto (methods : Methods) (p : Dict) :
  proto p = None → own p !! "__proto__" = None →
  read methods p "__proto__" = Some objectPrototype.
Proof. unfold read. by intros -> ->. Qed.

Lemma read_own (methods : Methods) (p : Dict) k v :
  own p !! k = Some v → read methods p k = Some v.
Proof. unfold read. by intros ->. Qed.

Lemma read_none (methods : Methods) (p : Dict) k :
  proto p = None → own p !! k = None → ¬ inheritedName k →
  read methods p k = None.
Proof.
  unfold read, inherited, inheritedName. intros -> -> Hk.
  destruct (String.eqb k "__proto__") eqn:Hproto.
  { apply String.eqb_eq in Hproto. tauto. }
  destruct (objectMethod k) as [f|]; [| done]. destruct Hk. right. by eexists.
Qed.

Lemma empty_not_inherited : ¬ inheritedName empty.
Proof. by intros [? | [? ?]]. Qed.

(** X7: when enrichment ran, every record of the 200 response has an
    allergens property, a text without white space at either end, and a
    pronunciation property.  The pronunciation is a text, empty only if the
    name is, unless the record is named [__proto__]: then it is
    [Object.prototype], since no assignment has put a property of that
    name on the map, and the allergens are empty. *)
Theorem enriched_records_carry_texts
    (w : World) (reqBody : obj) (log : list Request) (dishes : list obj) :
  (analyzeMenu w reqBody log).1 = ok dishes →
  skipRequested reqBody = false →
  ∀ d, d ∈ dishes →
    ∃ n a,
      d !! "original_name" = Some (JStr n)
      ∧ d !! "allergens" = Some (JStr a)
      ∧ trim a = a
      ∧ (n = "__proto__" → d !! "pronunciation" = Some objectPrototype ∧ a = empty)
      ∧ (n ≠ "__proto__" →
         ∃ p, d !! "pronunciation" = Some (JStr p) ∧ (n ≠ empty → p ≠ empty)).
Proof.
  intros Hrun Hskip d Hd.
  destruct (enriched_record _ _ _ _ _ Hrun Hskip Hd)
    as (allDishes & log2 & n & Hvalid & Hin & _ & Hn & Hp & Ha).
  destruct (pronunciation_keys w allDishes log2 n Hvalid) as (Hproto & Hvalue & Hdom).
  exists n, (allergenText ((enrichmentMaps w allDishes log2).2 !! n)).
  split; [done|]. split; [done|]. split; [| split].
  - unfold allergenText.
    destruct ((enrichmentMaps w allDishes log2).2 !! n) as [[| | |s| | |]|]; try done.
    destruct (String.eqb (trim s) empty); [done | apply trim_idem].
  - intros ->. split.
    + rewrite Hp, read_proto; [done | done |].
      destruct Hvalue as [? | [s Hs]]; [done|].
      assert (is_Some (own (enrichmentMaps w allDishes log2).1 !! "__proto__")) as Hsome
        by (by eexists).
      by apply Hdom in Hsome as [? _].
    + destruct ((enrichmentMaps w allDishes log2).2 !! "__proto__") as [v|] eqn:Hv; [| done].
      by destruct (allergen_keys _ _ _ _ _ Hvalid Hv) as (_ & ? & _).
  - intros Hne. rewrite Hp. destruct Hvalue as [Hnone | [s Hs]].
    + assert (n = empty) as ->.
      { destruct (decide (n = empty)) as [? | Hn']; [done|].
        assert (is_Some (own (enrichmentMaps w allDishes log2).1 !! n)) as [? Hsome]
          by (by apply Hdom).
        by rewrite Hnone in Hsome. }
      rewrite (read_none _ _ _ Hproto Hnone empty_not_inherited). by exists empty.
    + rewrite (read_own _ _ _ _ Hs). unfold or_else. cbn [truthy ToBoolean].
      destruct (String.eqb s empty) eqn:Hempty; cbn [negb].
      * by exists n.
      * exists s. split; [done|]. intros _. by apply String.eqb_neq in Hempty.
Qed.

Lemma enriched_records_witness :
  let dishes :=
    dishesOf (analyzeMenu Cases.protoNamed (Sample.request [Sample.image "p1"]) []).1 in
  Forall (fun d : obj =>
            ∃ n a,
              d !! "original_name" = Some (JStr n)
              ∧ d !! "allergens" = Some (JStr a)
              ∧ trim a = a
              ∧ (n = "__proto__" →
                 d !! "pronunciation" = Some objectPrototype ∧ a = empty)
              ∧ (n ≠ "__proto__" →
                 ∃ p, d !! "pronunciation" = Some (JStr p) ∧ (n ≠ empty → p ≠ empty)))
    dishes
  ∧ (dishes !! 0 ≫= (.!! "original_name")) = Some (JStr "__proto__")
  ∧ (dishes !! 0 ≫= (.!! "pronunciation")) = Some objectPrototype
  ∧ (dishes !! 1 ≫= (.!! "pronunciation")) = Some (JStr "GYOH-zah").
Proof.
  intros dishes. split; [| repeat split; vm_compute; reflexivity].
  apply Forall_forall.
  apply (enriched_records_carry_texts
           Cases.protoNamed (Sample.request [Sample.image "p1"]) []);
    vm_compute; reflexivity.
Defined.

(** X8: a dish whose name begins or ends with white space gets no
    allergens, whatever the reply says: the allergen map is keyed by the
    trimmed names and the merge looks the name up as it stands. *)
Theorem untrimmed_name_gets_no_allergens
    (w : World) (reqBody : obj) (log : list Request) (dishes : list obj) :
  (analyzeMenu w reqBody log).1 = ok dishes →
  skipRequested reqBody = false →
  ∀ d n, d ∈ dishes →
    d !! "original_name" = Some (JStr n) →
    trim n ≠ n →
    d !! "allergens" = Some (JStr empty).
Proof.
  intros Hrun Hskip d n Hd Hname Huntrimmed.
  destruct (enriched_record _ _ _ _ _ Hrun Hskip Hd)
    as (allDishes & log2 & n' & Hvalid & _ & _ & Hn & _ & ->).
  rewrite Hname in Hn. injection Hn as <-.
  destruct ((enrichmentMaps w allDishes log2).2 !! n) as [v|] eqn:Hv; [| done].
  by destruct (allergen_keys _ _ _ _ _ Hvalid Hv) as [? _].
Qed.

Lemma untrimmed_name_witness :
  let run := analyzeMenu Cases.spacedName (Sample.request [Sample.image "p1"]) [] in
  Forall (fun d : obj =>
            d !! "original_name" = Some (JStr " Gyoza ") →
            d !! "allergens" = Some (JStr empty))
    (dishesOf run.1)
  ∧ (dishesOf run.1 !! 0 ≫= (.!! "original_name")) = Some (JStr " Gyoza ")
  ∧ run.2 !! 3 = Some (Allergens [("Gyoza", "This is a dumpling.")]).
Proof.
  intros run. split; [| split; vm_compute; reflexivity].
  apply Forall_forall. intros d Hd Hname.
  apply (untrimmed_name_gets_no_allergens
           Cases.spacedName (Sample.request [Sample.image "p1"]) [] (dishesOf run.1)
           ltac:(vm_compute; reflexivity) ltac:(vm_compute; reflexivity)
           d " Gyoza " Hd Hname).
  discriminate.
Defined.

Lemma unparsed_plain n :
  ¬ inheritedName n → unparsedPronunciation n = n ∧ unparsedAllergens n = empty.
Proof.
  unfold inheritedName, unparsedPronunciation, unparsedAllergens. intros Hn.
  destruct (objectMethod n); [| done]. destruct Hn. right. by eexists.
Qed.

(** X9: when no enrichment reply can be used (each is rejected or cannot
    be parsed), the batch still succeeds, and every record whose name is
    not one that every object inherits ([__proto__], [constructor],
    [toString] ...) comes back with its name as pronunciation and with
    empty allergens. *)
Theorem unusable_enrichment_leaves_defaults
    (w : World) (reqBody : obj) (log : list Request) (dishes : list obj) :
  (∀ i names, unusable w (complete w i (Pronunciations names))) →
  (∀ i items, unusable w (complete w i (Allergens items))) →
  (analyzeMenu w reqBody log).1 = ok dishes →
  skipRequested reqBody = false →
  ∀ d n, d ∈ dishes →
    d !! "original_name" = Some (JStr n) →
    ¬ inheritedName n →
    d !! "pronunciation" = Some (JStr n)
    ∧ d !! "allergens" = Some (JStr empty).
Proof.
  intros Hpron Hall Hrun Hskip d n Hd Hname Hplain.
  destruct (enriched_record _ _ _ _ _ Hrun Hskip Hd)
    as (allDishes & log2 & n' & Hvalid & Hin & _ & Hn & -> & ->).
  rewrite Hname in Hn. injection Hn as <-.
  destruct (unparsed_plain n Hplain) as [Hp Ha].
  destruct (enrichmentMaps_spec w allDishes log2 _ _ Hvalid eq_refl eq_refl)
    as (Hproto & [Hdom _] & Hrejected & Hunparsed & Hkeys & Harejected & Haunparsed).
  set (maps := enrichmentMaps w allDishes log2) in *.
  set (names := firstOccurrences _) in *. set (items := normalized _) in *.
  split.
  - destruct (own maps.1 !! n) as [v|] eqn:Hv.
    + assert (n ∈ assignable names) as Hasked by (apply Hdom; by eexists).
      assert (v = JStr n) as ->.
      { destruct (Hpron (length log2) names) as [Hr | Hparse].
        - rewrite (Hrejected Hr n Hasked) in Hv. by injection Hv.
        - assert (complete w (length log2) (Pronunciations names) = Rejected
                  ∨ complete w (length log2) (Pronunciations names) ≠ Rejected)
            as [Hr | Hr]
            by (destruct (complete w (length log2) (Pronunciations names));
                [by left | by right | by right]).
          + rewrite (Hrejected Hr n Hasked) in Hv. by injection Hv.
          + rewrite (Hunparsed Hr Hparse n Hasked), Hp in Hv. by injection Hv. }
      rewrite (read_own _ _ _ _ Hv). unfold or_else. by destruct (truthy _).
    + by rewrite (read_none _ _ _ Hproto Hv Hplain).
  - do 2 f_equal. destruct (maps.2 !! n) as [v|] eqn:Hv; [| done].
    destruct (Hkeys _ _ Hv) as [Hasked _].
    assert (v = JStr empty) as ->; [| done].
    destruct (Hall (S (length log2)) items) as [Hr | Hparse].
    + by rewrite (Harejected Hr), lookup_empty in Hv.
    + assert (complete w (S (length log2)) (Allergens items) = Rejected
              ∨ complete w (S (length log2)) (Allergens items) ≠ Rejected)
        as [Hr | Hr]
        by (destruct (complete w (S (length log2)) (Allergens items));
            [by left | by right | by right]).
      * by rewrite (Harejected Hr), lookup_empty in Hv.
      * rewrite (Haunparsed Hr Hparse n Hasked), Ha in Hv. by injection Hv.
Qed.

Lemma unusable_enrichment_witness :
  let dishes :=
    dishesOf (analyzeMenu Cases.enrichmentDown (Sample.request Sample.twoImages) []).1 in
  Forall (fun d : obj =>
            d !! "original_name" = Some (JStr "Gyoza") →
            d !! "pronunciation" = Some (JStr "Gyoza")
            ∧ d !! "allergens" = Some (JStr empty))
    dishes
  ∧ (dishes !! 1 ≫= (.!! "original_name")) = Some (JStr "Gyoza")
  ∧ length dishes = 3.
Proof.
  intros dishes. split; [| split; vm_compute; reflexivity].
  apply Forall_forall. intros d Hd Hname.
  apply (unusable_enrichment_leaves_defaults
           Cases.enrichmentDown (Sample.request Sample.twoImages) [] dishes
           ltac:(intros i names; left; reflexivity)
           ltac:(intros i items; left; reflexivity)
           ltac:(vm_compute; reflexivity) ltac:(vm_compute; reflexivity)
           d "Gyoza" Hd Hname).
  intros [Hproto | [f Hf]]; discriminate.
Defined.

(** X14: when both enrichment replies arrive and neither can be parsed,
    a record named after a method that every object inherits
    ([constructor], [toString] ...) comes back with the text of that
    method as pronunciation and as allergens: the helpers read the name
    on [{}], which finds the method, and write its text on the map. *)
Theorem inherited_method_shows_as_text
    (w : World) (reqBody : obj) (log : list Request) (dishes : list obj) :
  (∀ i names, complete w i (Pronunciations names) ≠ Rejected
              ∧ JSON_parse w (mapText (complete w i (Pronunciations names))) = None) →
  (∀ i items, complete w i (Allergens items) ≠ Rejected
              ∧ JSON_parse w (mapText (complete w i (Allergens items))) = None) →
  (analyzeMenu w reqBody log).1 = ok dishes →
  skipRequested reqBody = false →
  ∀ d n f, d ∈ dishes →
    d !! "original_name" = Some (JStr n) →
    objectMethod n = Some f →
    d !! "pronunciation" = Some (JStr (nativeText f))
    ∧ d !! "allergens" = Some (JStr (nativeText f)).
Proof.
  intros Hpron Hall Hrun Hskip d n f Hd Hname Hf.
  destruct (enriched_record _ _ _ _ _ Hrun Hskip Hd)
    as (allDishes & log2 & n' & Hvalid & Hin & [s Hitem] & Hn & -> & ->).
  rewrite Hname in Hn. injection Hn as <-.
  destruct (objectMethod_text _ _ Hf) as (Htext & Hsome & Hproto & Hne & Htrim).
  destruct (enrichmentMaps_spec w allDishes log2 _ _ Hvalid eq_refl eq_refl)
    as (_ & _ & _ & Hunparsed & _ & _ & Haunparsed).
  set (maps := enrichmentMaps w allDishes log2) in *.
  set (names := firstOccurrences _) in *. set (items := normalized _) in *.
  destruct (Hpron (length log2) names) as [Hr1 Hparse1].
  destruct (Hall (S (length log2)) items) as [Hr2 Hparse2].
  assert (own maps.1 !! n = Some (JStr (nativeText f))) as Hp.
  { rewrite (Hunparsed Hr1 Hparse1); [by unfold unparsedPronunciation; rewrite Hf|].
    apply list_elem_of_filter. split; [done|].
    apply elem_of_firstOccurrences, list_elem_of_filter. by split. }
  assert (maps.2 !! n = Some (JStr (nativeText f))) as Ha.
  { rewrite (Haunparsed Hr2 Hparse2); [by unfold unparsedAllergens; rewrite Hf|].
    apply list_elem_of_filter. split; [done|].
    apply normalized_keys. split; [done|]. by exists (n, s). }
  split.
  - rewrite (read_own _ _ _ _ Hp). unfold or_else. cbn [truthy ToBoolean].
    apply String.eqb_neq in Hsome. by rewrite Hsome.
  - rewrite Ha. cbn [allergenText]. rewrite Htext.
    apply String.eqb_neq in Hsome. by rewrite Hsome.
Qed.

Lemma inherited_method_witness :
  let dishes :=
    dishesOf (analyzeMenu Cases.constructorNamed (Sample.request [Sample.image "p1"]) []).1 in
  Forall (fun d : obj =>
            d !! "original_name" = Some (JStr "constructor") →
            d !! "pronunciation" = Some (JStr "function Object() { [native code] }")
            ∧ d !! "allergens" = Some (JStr "function Object() { [native code] }"))
    dishes
  ∧ (dishes !! 0 ≫= (.!! "original_name")) = Some (JStr "constructor")
  ∧ length dishes = 1.
Proof.
  intros dishes. split; [| split; vm_compute; reflexivity].
  apply Forall_forall. intros d Hd Hname.
  apply (inherited_method_shows_as_text
           Cases.constructorNamed (Sample.request [Sample.image "p1"]) [] dishes
           ltac:(intros i names; split; [discriminate | reflexivity])
           ltac:(intros i items; split; [discriminate | reflexivity])
           ltac:(vm_compute; reflexivity) ltac:(vm_compute; reflexivity)
           d "constructor" "Object" Hd Hname).
  reflexivity.
Defined.

(** ** Pages *)

Lemma chunk_pages (f : nat → value → list obj) (images : list value) (i0 : nat) :
  (∀ k img d, d ∈ f k img → d !! "page" = Some (ofNat (k + 1))) →
  ∀ i j d1 d2,
    i ≤ j →
    concat (imap (fun k => f (i0 + k)) images) !! i = Some d1 →
    concat (imap (fun k => f (i0 + k)) images) !! j = Some d2 →
    ∃ p1 p2,
      d1 !! "page" = Some (ofNat p1) ∧ d2 !! "page" = Some (ofNat p2)
      ∧ i0 + 1 ≤ p1 ∧ p1 ≤ p2 ∧ p2 ≤ i0 + length images.
Proof.
  intros Hpage. revert i0.
  induction images as [|img rest IH]; intros i0 i j d1 d2 Hij H1 H2; [done|].
  rewrite imap_cons in H1, H2. cbn [concat] in H1, H2.
  rewrite (imap_ext _ (fun k => f (S i0 + k))) in H1, H2
    by (intros k x _; cbn; f_equal; lia).
  apply lookup_app_Some in H1 as [H1 | [Hlen1 H1]];
    apply lookup_app_Some in H2 as [H2 | [Hlen2 H2]].
  - exists (i0 + 0 + 1), (i0 + 0 + 1).
    split; [by eapply Hpage, list_elem_of_lookup_2|].
    split; [by eapply Hpage, list_elem_of_lookup_2|]. cbn. lia.
  - destruct (IH (S i0) _ _ d2 d2 (le_n _) H2 H2) as (p & p' & Hp & _ & Hlo & Hmid & Hhi).
    exists (i0 + 0 + 1), p.
    split; [by eapply Hpage, list_elem_of_lookup_2|].
    split; [done|]. cbn. lia.
  - apply lookup_lt_Some in H2. lia.
  - destruct (IH (S i0) (i - length (f (i0 + 0) img)) (j - length (f (i0 + 0) img))
                d1 d2 ltac:(lia) H1 H2) as (p1 & p2 & ? & ? & ? & ? & ?).
    exists p1, p2. cbn. repeat split; try done; lia.
Qed.

(** X10: in a 200 response every record carries a page between 1 and the
    number of images, and along the response the pages never decrease. *)
Theorem pages_are_in_range_and_never_decrease
    (w : World) (reqBody : obj) (images : list value) (log : list Request)
    (dishes : list obj) :
  reqBody !! "images" = Some (JArr images) →
  (analyzeMenu w reqBody log).1 = ok dishes →
  ∀ i j d1 d2,
    i ≤ j → dishes !! i = Some d1 → dishes !! j = Some d2 →
    ∃ p1 p2,
      d1 !! "page" = Some (ofNat p1) ∧ d2 !! "page" = Some (ofNat p2)
      ∧ 1 ≤ p1 ∧ p1 ≤ p2 ∧ p2 ≤ length images.
Proof.
  intros Himages (images' & Himages' & _ & _ & _ & Hdishes)%analyzeMenu_ok_inv.
  rewrite Himages in Himages'. injection Himages' as <-.
  set (start := length (validateMenuImages w images log).2) in *.
  set (allDishes := concat (imap (imageDishes w start) images)) in *.
  assert (length dishes = length allDishes
          ∧ ∀ i d, dishes !! i = Some d →
                   ∃ d0, allDishes !! i = Some d0 ∧ d !! "page" = d0 !! "page")
    as [Hlen Hsame].
  { destruct Hdishes as [[_ ->] | [_ (p & a & ->)]].
    - split; [done|]. intros i d Hd. by exists d.
    - split; [apply enrichAll_length|]. intros i d Hd.
      assert (i < length allDishes) as Hi.
      { rewrite <- (enrichAll_length w p a). by eapply lookup_lt_Some. }
      destruct (lookup_lt_is_Some_2 _ _ Hi) as [d0 Hd0].
      exists d0. split; [done|]. by eapply enrichAll_frame. }
  intros i j d1 d2 Hij H1 H2.
  destruct (Hsame _ _ H1) as (e1 & He1 & ->).
  destruct (Hsame _ _ H2) as (e2 & He2 & ->).
  apply (chunk_pages (imageDishes w start) images 0) with (i := i) (j := j); try done.
  intros k img d Hd. by apply dishesOfReply_spec in Hd as [_ ?].
Qed.

Lemma pages_witness :
  let dishes := dishesOf (analyzeMenu Sample.twoPages (Sample.request Sample.twoImages) []).1 in
  ∃ d1 d2 p1 p2,
    dishes !! 1 = Some d1 ∧ dishes !! 2 = Some d2
    ∧ d1 !! "page" = Some (ofNat p1) ∧ d2 !! "page" = Some (ofNat p2)
    ∧ 1 ≤ p1 ∧ p1 ≤ p2 ∧ p2 ≤ 2.
Proof.
  intros dishes.
  assert (length dishes = 3) as Hlen by (vm_compute; reflexivity).
  destruct (lookup_lt_is_Some_2 dishes 1 ltac:(lia)) as [d1 H1].
  destruct (lookup_lt_is_Some_2 dishes 2 ltac:(lia)) as [d2 H2].
  destruct (pages_are_in_range_and_never_decrease
              Sample.twoPages (Sample.request Sample.twoImages) Sample.twoImages [] dishes
              ltac:(reflexivity) ltac:(vm_compute; reflexivity)
              1 2 d1 d2 ltac:(lia) H1 H2) as (p1 & p2 & Hpages).
  exists d1, d2, p1, p2. split; [exact H1|]. split; [exact H2 | exact Hpages].
Defined.

(** ** The endpoints of the progressive enrichment *)

Lemma truthy_strings (names : list string) :
  filter ToBoolean (JStr <$> names) = JStr <$> filter (fun n => n ≠ empty) names.
Proof.
  induction names as [|n names IH]; [done|].
  cbn [fmap list_fmap]. rewrite !filter_cons, IH. cbn [ToBoolean].
  destruct (String.eqb n empty) eqn:Hn.
  - apply String.eqb_eq in Hn as ->.
    rewrite decide_False by (by intros ?). by rewrite decide_False by (by intros ?).
  - apply String.eqb_neq in Hn.
    rewrite decide_True by done. by rewrite decide_True by done.
Qed.

(** X11: on names that are texts, [/api/pronunciations] drops the empty
    ones and keeps the others in order, repeated names included.  When
    none is left it answers with an empty map and issues no request;
    otherwise it issues one request for the names left.  In both cases
    the map of the answer has texts as values, under exactly the names
    left other than [__proto__]: under that name no property is
    created. *)
Theorem pronunciations_endpoint_is_total
    (w : World) (reqBody : option obj) (names : list string) (log : list Request) :
  default ∅ reqBody !! "names" = Some (JArr (JStr <$> names)) →
  let wanted := filter (fun n => n ≠ empty) names in
  ∃ map,
    postPronunciations w reqBody log
    = (MapBody "pronunciations" map,
       log ++ match wanted with [] => [] | _ => [Pronunciations wanted] end)
    ∧ totalOver (assignable wanted) map
    ∧ map !! "__proto__" = None.
Proof.
  intros Hnames wanted.
  assert (∀ map : obj, totalOver (assignable wanted) map → map !! "__proto__" = None)
    as Hproto.
  { intros map [Hdom _]. destruct (map !! "__proto__") as [v|] eqn:Hv; [| done].
    assert ("__proto__" ∈ assignable wanted) as Hin by (apply Hdom; by eexists).
    by apply list_elem_of_filter in Hin as [? _]. }
  unfold postPronunciations. rewrite Hnames, truthy_strings.
  fold wanted. destruct wanted as [|n rest] eqn:Hwanted.
  { exists ∅. rewrite app_nil_r. split; [done|]. split; [| done]. split.
    - intros k. rewrite lookup_empty. split; [by intros [? ?] | by intros ?%elem_of_nil].
    - intros k v. by rewrite lookup_empty. }
  change (JStr <$> n :: rest) with (JStr n :: (JStr <$> rest)). cbv iota.
  change (JStr n :: (JStr <$> rest)) with (JStr <$> n :: rest).
  unfold mbind, M_bind.
  pose proof (pronunciations_log w (JStr <$> n :: rest) log) as Hlog.
  destruct (pronunciations_total w (n :: rest) log) as (filled & Hfilled & Htotal & _).
  destruct (getPronunciationsForNames w (JStr <$> n :: rest) log) as [p log1].
  cbn [fst snd] in *. subst p log1. exists filled.
  split; [| split; [done | by apply Hproto]].
  unfold pronunciationRequests. by rewrite mapM_ToString_strings.
Qed.

Lemma pronunciations_endpoint_witness :
  ∃ map,
    postPronunciations Cases.pronouncing
      (Some (<["names" := JArr (JStr <$> ["__proto__"; EmptyString; "Gyoza"; "Gyoza"])]> ∅))
      []
    = (MapBody "pronunciations" map, [Pronunciations ["__proto__"; "Gyoza"; "Gyoza"]])
    ∧ totalOver ["Gyoza"; "Gyoza"] map
    ∧ map !! "__proto__" = None.
Proof.
  apply (pronunciations_endpoint_is_total Cases.pronouncing
           (Some (<["names" := JArr (JStr <$> ["__proto__"; EmptyString; "Gyoza"; "Gyoza"])]> ∅))
           ["__proto__"; EmptyString; "Gyoza"; "Gyoza"] []).
  reflexivity.
Defined.

Lemma itemProps_object it :
  itemProps (itemObject it) = (Some (JStr it.1), Some (JStr it.2)).
Proof.
  unfold itemProps, itemObject. cbn [ToBoolean Get].
  rewrite lookup_insert_eq, lookup_insert_ne by done. by rewrite lookup_insert_eq.
Qed.

Lemma itemProps_objects items :
  itemProps <$> (itemObject <$> items) = asItems items.
Proof.
  unfold asItems. rewrite <- list_fmap_compose. apply list_fmap_ext.
  intros i it _. apply itemProps_object.
Qed.

Lemma normalized_idem items : normalized (normalized items) = normalized items.
Proof.
  assert (∀ l : list (string * string),
            Forall (fun it => (trim it.1, trim it.2) = it ∧ it.1 ≠ empty) l →
            normalized l = l) as Hfixed.
  { unfold normalized. induction 1 as [|it l [Htrim Hne] _ IH]; [done|].
    cbn [fmap list_fmap]. rewrite filter_cons, Htrim, decide_True by done.
    by rewrite IH. }
  apply Hfixed. apply Forall_forall. intros it Hit.
  unfold normalized in Hit. apply list_elem_of_filter in Hit as [Hne Hit].
  apply list_elem_of_fmap in Hit as (x & -> & _). cbn [fst snd] in *.
  by rewrite !trim_idem.
Qed.

(** X12: on items whose name and description are texts, [/api/allergens]
    trims them and drops those without a name; the helper normalizes them
    again, which changes nothing.  With no item left the answer is an empty
    map and no request is issued; otherwise one request lists the items
    left.  The map of the answer is empty, or it has texts as values under
    exactly the names of the items left other than [__proto__]. *)
Theorem allergens_endpoint_normalizes_once
    (w : World) (reqBody : option obj) (items : list (string * string))
    (log : list Request) :
  default ∅ reqBody !! "items" = Some (JArr (itemObject <$> items)) →
  ∃ map,
    postAllergens w reqBody log
    = (MapBody "allergens" map,
       log ++ match normalized items with
              | [] => []
              | list => [Allergens list]
              end)
    ∧ (map = ∅ ∨ totalOver (assignable (normalized items).*1) map).
Proof.
  intros Hitems. unfold postAllergens.
  rewrite Hitems, itemProps_objects, normalizeItems_strings.
  destruct (normalized items) as [|it list] eqn:Hnormalized.
  { exists ∅. rewrite app_nil_r. split; [done | by left]. }
  rewrite <- Hnormalized. unfold mbind, M_bind.
  pose proof (allergens_log w (asItems (normalized items)) log) as Hlog.
  pose proof (allergens_keys w (normalized items) log) as (Hkeys & _ & _).
  destruct (getAllergensForItems w (asItems (normalized items)) log) as [a log1].
  cbn [fst snd] in *. subst log1. exists a.
  rewrite normalized_idem in Hkeys. split; [| done].
  unfold allergenRequests.
  by rewrite normalizeItems_strings, normalized_idem, Hnormalized.
Qed.

Lemma allergens_endpoint_witness :
  ∃ map,
    postAllergens Cases.inferring
      (Some (<["items" := JArr (itemObject <$> [(" Gyoza ", "This is a dumpling. ");
                                                ("  ", "nameless");
                                                ("__proto__", "This is a prototype.")])]> ∅))
      []
    = (MapBody "allergens" map,
       [Allergens [("Gyoza", "This is a dumpling.");
                   ("__proto__", "This is a prototype.")]])
    ∧ (map = ∅ ∨ totalOver ["Gyoza"] map).
Proof.
  apply (allergens_endpoint_normalizes_once Cases.inferring
           (Some (<["items" := JArr (itemObject <$> [(" Gyoza ", "This is a dumpling. ");
                                                     ("  ", "nameless");
                                                     ("__proto__", "This is a prototype.")])]> ∅))
           [(" Gyoza ", "This is a dumpling. "); ("  ", "nameless");
            ("__proto__", "This is a prototype.")] []).
  reflexivity.
Defined.

(** ** The handler without page tags *)

Section UntaggedHandler.

Context (w : World).

Lemma untagged_extractAll_run images allDishes log :
  Untagged.extractAll w images allDishes log
  = (allDishes
       ++ concat (imap (fun j imageData =>
                          default [] (extracted w
                            (complete w (length log + j) (ExtractDishes imageData))))
                       images),
     log ++ (ExtractDishes <$> images)).
Proof.
  revert allDishes log.
  induction images as [|imageData rest IH]; intros allDishes log.
  - cbn. by rewrite !app_nil_r.
  - cbn [Untagged.extractAll]. unfold mbind, M_bind at 1. rewrite extract_run.
    cbn [imap concat fmap list_fmap]. rewrite !Nat.add_0_r.
    assert (imap (fun j imageData0 =>
                    default [] (extracted w
                      (complete w (length (log ++ [ExtractDishes imageData]) + j)
                         (ExtractDishes imageData0)))) rest
            = imap ((fun j imageData0 =>
                       default [] (extracted w
                         (complete w (length log + j) (ExtractDishes imageData0)))) ∘ S)
                rest) as Hshift.
    { apply imap_ext. intros j img _. cbn. rewrite length_app. cbn.
      by replace (length log + 1 + j) with (length log + S j) by lia. }
    destruct (extracted w (complete w (length log) (ExtractDishes imageData)))
      as [dishes|]; rewrite IH, Hshift, <- !app_assoc; done.
Qed.

Lemma dishesOfReply_tagged page r :
  dishesOfReply w page r = withPage page <$> default [] (extracted w r).
Proof. unfold dishesOfReply. by destruct (extracted w r). Qed.

Lemma Forall2_concat_imap {A B C} (R : B → C → Prop)
    (f : nat → A → list B) (g : nat → A → list C) (l : list A) :
  (∀ i x, Forall2 R (f i x) (g i x)) →
  Forall2 R (concat (imap f l)) (concat (imap g l)).
Proof.
  revert f g. induction l as [|x l IH]; intros f g Hfg; [constructor|].
  rewrite !imap_cons. cbn [concat]. apply Forall2_app; [done|].
  apply IH. intros i y. apply Hfg.
Qed.

End UntaggedHandler.

(** X13: for a request that asks to skip enrichment, the handler with page
    tags and the handler without answer alike: the same error response, or
    the same dishes in the same order, each with its page put on it; and
    both issue the same requests. *)
Theorem untagged_handler_agrees
    (w : World) (reqBody : obj) (log : list Request) :
  skipRequested reqBody = true →
  match Untagged.analyzeMenu w reqBody log with
  | (Untagged.Refused r, log') => analyzeMenu w reqBody log = (r, log')
  | (Untagged.Listed dishes, log') =>
      ∃ tagged,
        analyzeMenu w reqBody log = (ok tagged, log')
        ∧ Forall2 (fun d v => ∃ page, d = withPage page v) tagged dishes
  end.
Proof.
  intros Hskip. unfold Untagged.analyzeMenu, analyzeMenu.
  destruct (reqBody !! "images") as [[| | | |images| |]|]; try done.
  destruct images as [|imageData rest]; [done|].
  destruct (5 <? length (imageData :: rest)); [done|].
  rewrite analyzeImages_unfold. unfold mbind, M_bind.
  destruct (validateMenuImages w (imageData :: rest) log) as [[|] log1];
    cbn [negb]; [| done].
  rewrite extractAll_images, untagged_extractAll_run. cbn [app].
  assert (Forall2 (fun d v => ∃ page, d = withPage page v)
            (concat (imap (imageDishes w (length log1)) (imageData :: rest)))
            (concat (imap (fun j img =>
                             default [] (extracted w
                               (complete w (length log1 + j) (ExtractDishes img))))
                          (imageData :: rest)))) as Hrel.
  { apply Forall2_concat_imap. intros i img. unfold imageDishes.
    rewrite dishesOfReply_tagged. apply Forall2_fmap_l, Forall_Forall2_diag.
    apply Forall_forall. intros v _. by eexists. }
  destruct Hrel as [|d v tagged dishes Hd Hrest]; [done|].
  rewrite Hskip. exists (d :: tagged). split; [done | by constructor].
Qed.

Lemma untagged_handler_witness :
  let reqBody := Sample.skipping (Sample.request Sample.twoImages) in
  match Untagged.analyzeMenu Sample.twoPages reqBody [] with
  | (Untagged.Refused r, log') => analyzeMenu Sample.twoPages reqBody [] = (r, log')
  | (Untagged.Listed dishes, log') =>
      ∃ tagged,
        analyzeMenu Sample.twoPages reqBody [] = (ok tagged, log')
        ∧ Forall2 (fun d v => ∃ page, d = withPage page v) tagged dishes
  end
  ∧ length (dishesOf (analyzeMenu Sample.twoPages reqBody []).1) = 3.
Proof.
  intros reqBody. split; [| vm_compute; reflexivity].
  apply (untagged_handler_agrees Sample.twoPages reqBody []).
  vm_compute; reflexivity.
Defined.
